(** * Commitment transaction construction (channeld/commit_tx.c)

    A shallow embedding of [commit_tx] and [commit_tx_num_untrimmed] and the
    properties the design document states about them.  Amounts, heights and
    machine words are [Z]; array indices and counts are [nat]; arrays are
    lists updated in place with stdpp's [<[i:=x]>]; aborts and failed
    assertions are [None] in the option monad. *)

From Stdlib Require Import ZArith Lia.
From stdpp Require Import base option list sorting.

Local Open Scope Z_scope.

(** ** Data model *)

(** [enum side]. *)
Inductive side := LOCAL | REMOTE.

Global Instance side_eq_dec : EqDecision side.
Proof. solve_decision. Defined.

(** [struct amount_sat] and [struct amount_msat]: two distinct units. *)
Record amount_sat := AMOUNT_SAT { satoshis : Z }.
Record amount_msat := AMOUNT_MSAT { millisatoshis : Z }.

Definition u64_max : Z := 2 ^ 64.
Definition u32_max : Z := 2 ^ 32.

(** A value of C type [u64]. *)
Definition is_u64 (z : Z) : Prop := 0 <= z < u64_max.

(** Byte strings (scripts, hashes, keys). *)
Definition bytes := list Z.

(** [const struct htlc *]: an address.  [NULL] is 0; the two tags that
    [commit_tx] casts from the integers 1 and 2 are below. *)
Definition htlc_ptr := Z.
Definition NULL : htlc_ptr := 0.
Definition dummy_to_local : htlc_ptr := 0x01.
Definition dummy_to_remote : htlc_ptr := 0x02.

(** [struct htlc], the fields the builder reads. *)
Record htlc := {
  htlc_id : Z;
  amount : amount_msat;
  rhash : bytes;
  expiry : Z;
  owner : side
}.

(** The HTLC objects the pointers of one call refer to: a read-only
    snapshot of memory. *)
Definition htlc_store := htlc_ptr -> htlc.

(** [struct keyset]. *)
Record keyset := {
  self_revocation_key : bytes;
  self_htlc_key : bytes;
  other_htlc_key : bytes;
  self_delayed_payment_key : bytes;
  self_payment_key : bytes;
  other_payment_key : bytes
}.

(** [struct wally_tx_output], [struct wally_tx_input], [struct wally_tx]. *)
Record wally_tx_output := { satoshi : Z; script : bytes }.
Record wally_tx_input := { txhash : bytes; index : Z; sequence : Z }.
Record wally_tx := {
  version : Z;
  locktime : Z;
  inputs : list wally_tx_input;
  outputs : list wally_tx_output;
  outputs_allocation_len : nat
}.

Definition num_outputs (w : wally_tx) : nat := length (outputs w).
Definition num_inputs (w : wally_tx) : nat := length (inputs w).

(** [struct bitcoin_tx]; an entry of [output_witscripts] is a pointer to a
    [struct witscript], [None] when it is [NULL]. *)
Record bitcoin_tx := {
  wtx : wally_tx;
  input_amounts : list amount_sat;
  output_witscripts : list (option bytes)
}.

(** ** Amount arithmetic *)

(** Modelled from the spec: [amount_msat_add] (its code is in
    common/amount.c); addition of two millisatoshi amounts, refused
    when the sum does not fit 64 bits. *)
Definition amount_msat_add (a b : amount_msat) : option amount_msat :=
  let s := millisatoshis a + millisatoshis b in
  if s <? u64_max then Some (AMOUNT_MSAT s) else None.

(** Modelled from the spec: [amount_msat_greater_sat] and
    [amount_msat_greater_eq_sat], the comparisons of a millisatoshi amount
    with a satoshi amount. *)
Definition amount_msat_greater_sat (m : amount_msat) (s : amount_sat) : bool :=
  satoshis s * 1000 <? millisatoshis m.

Definition amount_msat_greater_eq_sat (m : amount_msat) (s : amount_sat) : bool :=
  satoshis s * 1000 <=? millisatoshis m.

(** Modelled from the spec: [amount_msat_to_sat_round_down], the truncating
    conversion. *)
Definition amount_msat_to_sat_round_down (m : amount_msat) : amount_sat :=
  AMOUNT_SAT (millisatoshis m / 1000).

(** Modelled from the spec: [amount_msat_sub_sat], refused when the result
    would be negative. *)
Definition amount_msat_sub_sat (m : amount_msat) (s : amount_sat) : option amount_msat :=
  if satoshis s * 1000 <=? millisatoshis m
  then Some (AMOUNT_MSAT (millisatoshis m - satoshis s * 1000))
  else None.

(** Modelled from the spec: [try_subtract_fee] (section 4.3; its code is
    in common/initial_commit_tx.c, [commit_tx] only calls it).  The
    fee comes off the opener's balance, which is [self] when the opener is
    the rendering side, and stops at zero. *)
Definition try_subtract_fee (opener side0 : side) (base_fee : amount_sat)
    (self other : amount_msat) : amount_msat * amount_msat :=
  if decide (opener = side0) then
    (default (AMOUNT_MSAT 0) (amount_msat_sub_sat self base_fee), other)
  else
    (self, default (AMOUNT_MSAT 0) (amount_msat_sub_sat other base_fee)).

(** ** Collaborators

    Script generation, the trimming rule and the fee formula live outside
    this file of the program; the builder is generic in them. *)
Class Collaborators := {
  ripemd160 : bytes -> bytes;
  htlc_offered_wscript : bytes -> keyset -> bytes;
  htlc_received_wscript : bytes -> Z -> keyset -> bytes;
  to_self_wscript : Z -> keyset -> bytes;
  scriptpubkey_p2wsh : bytes -> bytes;
  scriptpubkey_p2wpkh : bytes -> bytes;
  htlc_is_trimmed : side -> amount_msat -> Z -> amount_sat -> side -> bool;
  commit_tx_base_fee : Z -> nat -> amount_sat
}.

(** What [tal_arr] hands out is not initialised: the previous content of
    the two scratch arrays is an input of the model. *)
Record stale_memory := {
  stale_htlcmap : nat -> htlc_ptr;
  stale_cltvs : nat -> Z
}.

Definition tal_arr {A} (stale : nat -> A) (len : nat) : list A :=
  stale <$> seq 0 len.

(** ** Transaction container *)

(** Modelled from the spec: [bitcoin_tx], a fresh version-2 transaction with
    room for [output_count] outputs and a zeroed witness-script array. *)
Definition new_bitcoin_tx (input_count output_count : nat) (nlocktime : Z) : bitcoin_tx :=
  {| wtx := {| version := 2; locktime := nlocktime; inputs := [];
               outputs := []; outputs_allocation_len := output_count |};
     input_amounts := [];
     output_witscripts := replicate output_count None |}.

(** Modelled from the spec: [bitcoin_tx_add_output] appends an output and
    returns its position. *)
Definition bitcoin_tx_add_output (tx : bitcoin_tx) (spk : bytes) (amt : amount_sat)
    : bitcoin_tx * nat :=
  let w := wtx tx in
  ({| wtx := {| version := version w; locktime := locktime w; inputs := inputs w;
                outputs := outputs w ++ [ {| satoshi := satoshis amt; script := spk |} ];
                outputs_allocation_len := outputs_allocation_len w |};
      input_amounts := input_amounts tx;
      output_witscripts := output_witscripts tx |},
   num_outputs w).

(** Modelled from the spec: [bitcoin_tx_add_input] appends the input and
    remembers the amount it spends. *)
Definition bitcoin_tx_add_input (tx : bitcoin_tx) (txid : bytes) (outnum : Z)
    (seqno : Z) (amt : amount_sat) : bitcoin_tx :=
  let w := wtx tx in
  {| wtx := {| version := version w; locktime := locktime w;
               inputs := inputs w ++ [ {| txhash := txid; index := outnum; sequence := seqno |} ];
               outputs := outputs w;
               outputs_allocation_len := outputs_allocation_len w |};
     input_amounts := input_amounts tx ++ [amt];
     output_witscripts := output_witscripts tx |}.

(** Modelled from the spec: [bitcoin_tx_finalize] shrinks the pre-sized
    witness-script array to the number of outputs. *)
Definition bitcoin_tx_finalize (tx : bitcoin_tx) : bitcoin_tx :=
  {| wtx := wtx tx;
     input_amounts := input_amounts tx;
     output_witscripts := take (num_outputs (wtx tx)) (output_witscripts tx) |}.

(** Modelled from the spec: [bitcoin_tx_check], the structural check of
    section 4.6: outputs not empty, every amount a valid 64-bit amount. *)
Definition bitcoin_tx_check (tx : bitcoin_tx) : bool :=
  negb (Nat.eqb (num_outputs (wtx tx)) 0)
  && forallb (fun o => (0 <=? satoshi o) && (satoshi o <? u64_max)) (outputs (wtx tx)).

Definition set_locktime (tx : bitcoin_tx) (l : Z) : bitcoin_tx :=
  let w := wtx tx in
  {| wtx := {| version := version w; locktime := l; inputs := inputs w;
               outputs := outputs w;
               outputs_allocation_len := outputs_allocation_len w |};
     input_amounts := input_amounts tx;
     output_witscripts := output_witscripts tx |}.

Definition set_output_witscript (tx : bitcoin_tx) (n : nat) (w : bytes) : bitcoin_tx :=
  {| wtx := wtx tx;
     input_amounts := input_amounts tx;
     output_witscripts := <[n := Some w]> (output_witscripts tx) |}.

(** ** Canonical ordering *)

Definition lex (c1 c2 : comparison) : comparison :=
  match c1 with Eq => c2 | _ => c1 end.

(** Byte-wise comparison of two scripts, the shorter first when one is a
    prefix of the other. *)
Fixpoint script_cmp (a b : bytes) : comparison :=
  match a, b with
  | [], [] => Eq
  | [], _ :: _ => Lt
  | _ :: _, [] => Gt
  | x :: a', y :: b' => lex (x ?= y) (script_cmp a' b')
  end.

Definition output_cmp (a b : wally_tx_output) : comparison :=
  lex (satoshi a ?= satoshi b) (script_cmp (script a) (script b)).

(** One output with what travels with it through the permutation. *)
Record out_row := {
  row_out : wally_tx_output;
  row_wit : option bytes;
  row_cltv : Z;
  row_map : htlc_ptr
}.

Definition row_cmp (a b : out_row) : comparison :=
  lex (output_cmp (row_out a) (row_out b)) (row_cltv a ?= row_cltv b).

Definition row_leb (a b : out_row) : bool :=
  match row_cmp a b with Gt => false | _ => true end.

Fixpoint place (r : out_row) (l : list out_row) : list out_row :=
  match l with
  | [] => [r]
  | y :: l' => if row_leb r y then r :: l else y :: place r l'
  end.

Definition sort_rows (l : list out_row) : list out_row := foldr place [] l.

Fixpoint zip_rows (os : list wally_tx_output) (ws : list (option bytes))
    (cs : list Z) (ms : list htlc_ptr) : list out_row :=
  match os, ws, cs, ms with
  | o :: os', w :: ws', c :: cs', m :: ms' =>
      {| row_out := o; row_wit := w; row_cltv := c; row_map := m |}
      :: zip_rows os' ws' cs' ms'
  | _, _, _, _ => []
  end.

(** Modelled from the spec: [permute_outputs] (section 4.5; its code is in
    common/permute_tx.c, [commit_tx] only calls it).  The outputs go into ascending
    order of amount, then script, then expiry height; the sort is stable;
    witness scripts, heights and map entries move with their output. *)
Definition permute_outputs (tx : bitcoin_tx) (cltvs : list Z) (map : list htlc_ptr)
    : bitcoin_tx * list Z * list htlc_ptr :=
  let w := wtx tx in
  let n := num_outputs w in
  let rows := sort_rows (zip_rows (outputs w) (output_witscripts tx) cltvs map) in
  ({| wtx := {| version := version w; locktime := locktime w; inputs := inputs w;
                outputs := row_out <$> rows;
                outputs_allocation_len := outputs_allocation_len w |};
      input_amounts := input_amounts tx;
      output_witscripts := (row_wit <$> rows) ++ drop n (output_witscripts tx) |},
   (row_cltv <$> rows) ++ drop n cltvs,
   (row_map <$> rows) ++ drop n map).

(** ** The builder *)

(** A failed [assert] (or [abort]) ends the call. *)
Definition c_assert (b : bool) : option unit := if b then Some () else None.

(** The variables the output-emitting part of [commit_tx] updates:
    [tx], [*htlcmap], [cltvs] and [n]. *)
Record build := {
  b_tx : bitcoin_tx;
  b_htlcmap : list htlc_ptr;
  b_cltvs : list Z;
  b_n : nat
}.

(** What a call hands back: the transaction, [*htlcmap], and the two slots
    of [direct_outputs] (local, remote), each the position of an output or
    [None] for [NULL]; no slots when the caller passed no array. *)
Record commit_result := {
  res_tx : bitcoin_tx;
  res_htlcmap : list htlc_ptr;
  res_direct_outputs : option (option nat * option nat)
}.

Section Builder.
Context `{Collaborators}.

(** Modelled from the spec: [htlc_owner], the side that offered the HTLC
    (section 3); its code is in common/htlc_state.c. *)
Definition htlc_owner (h : htlc) : side := owner h.

(** Modelled from the spec: [abs_locktime_to_blocks]; the expiry of an HTLC
    is an absolute block height. *)
Definition abs_locktime_to_blocks (e : Z) : Z := e.

Definition trim (h : htlc) (feerate_per_kw : Z) (dust_limit : amount_sat)
    (side0 : side) : bool :=
  htlc_is_trimmed (htlc_owner h) (amount h) feerate_per_kw dust_limit side0.

Definition commit_tx_num_untrimmed (mem : htlc_store) (htlcs : list htlc_ptr)
    (feerate_per_kw : Z) (dust_limit : amount_sat) (side0 : side) : nat :=
  fold_left
    (fun n p => (n + Nat.b2n (negb (trim (mem p) feerate_per_kw dust_limit side0)))%nat)
    htlcs 0%nat.

Definition add_offered_htlc_out (tx : bitcoin_tx) (n : nat) (h : htlc)
    (ks : keyset) : bitcoin_tx :=
  let amt := amount_msat_to_sat_round_down (amount h) in
  let ripemd := ripemd160 (rhash h) in
  let wscript := htlc_offered_wscript ripemd ks in
  let p2wsh := scriptpubkey_p2wsh wscript in
  let tx := fst (bitcoin_tx_add_output tx p2wsh amt) in
  set_output_witscript tx n wscript.

Definition add_received_htlc_out (tx : bitcoin_tx) (n : nat) (h : htlc)
    (ks : keyset) : bitcoin_tx :=
  let ripemd := ripemd160 (rhash h) in
  let wscript := htlc_received_wscript ripemd (expiry h) ks in
  let p2wsh := scriptpubkey_p2wsh wscript in
  let amt := amount_msat_to_sat_round_down (amount h) in
  let tx := fst (bitcoin_tx_add_output tx p2wsh amt) in
  set_output_witscript tx n wscript.

Section Call.
Variable mem : htlc_store.
Variable ks : keyset.
Variable feerate_per_kw : Z.
Variable dust_limit : amount_sat.
Variable side0 : side.
Variable to_self_delay : Z.
Variable direct_outputs : bool.

(** Body of the first loop over [htlcs].  The arrays are written at index
    [n]; lemma [emit_outputs_build_of] shows that [n] stays below their
    length, so no write falls outside them. *)
Definition offered_iter (st : build) (p : htlc_ptr) : build :=
  if negb (bool_decide (htlc_owner (mem p) = side0)) then st
  else if trim (mem p) feerate_per_kw dust_limit side0 then st
  else
    let n := b_n st in
    {| b_tx := add_offered_htlc_out (b_tx st) n (mem p) ks;
       b_htlcmap := <[n := p]> (b_htlcmap st);
       b_cltvs := <[n := abs_locktime_to_blocks (expiry (mem p))]> (b_cltvs st);
       b_n := S n |}.

(** Body of the second loop over [htlcs]. *)
Definition received_iter (st : build) (p : htlc_ptr) : build :=
  if bool_decide (htlc_owner (mem p) = side0) then st
  else if trim (mem p) feerate_per_kw dust_limit side0 then st
  else
    let n := b_n st in
    {| b_tx := add_received_htlc_out (b_tx st) n (mem p) ks;
       b_htlcmap := <[n := p]> (b_htlcmap st);
       b_cltvs := <[n := abs_locktime_to_blocks (expiry (mem p))]> (b_cltvs st);
       b_n := S n |}.

(** Step 5: the [to_local] output. *)
Definition add_to_local (self_pay : amount_msat) (st : build) : build :=
  if amount_msat_greater_eq_sat self_pay dust_limit then
    let n := b_n st in
    let wscript := to_self_wscript to_self_delay ks in
    let p2wsh := scriptpubkey_p2wsh wscript in
    let amt := amount_msat_to_sat_round_down self_pay in
    let tx := fst (bitcoin_tx_add_output (b_tx st) p2wsh amt) in
    {| b_tx := set_output_witscript tx n wscript;
       b_htlcmap := <[n := if direct_outputs then dummy_to_local else NULL]> (b_htlcmap st);
       b_cltvs := b_cltvs st;
       b_n := S n |}
  else st.

(** Step 6: the [to_remote] output, with its [assert(pos == n)]. *)
Definition add_to_remote (other_pay : amount_msat) (st : build) : option build :=
  if amount_msat_greater_eq_sat other_pay dust_limit then
    let n := b_n st in
    let amt := amount_msat_to_sat_round_down other_pay in
    let p2wpkh := scriptpubkey_p2wpkh (other_payment_key ks) in
    let '(tx, pos) := bitcoin_tx_add_output (b_tx st) p2wpkh amt in
    c_assert (Nat.eqb pos n);;
    Some {| b_tx := tx;
            b_htlcmap := <[n := if direct_outputs then dummy_to_remote else NULL]> (b_htlcmap st);
            b_cltvs := b_cltvs st;
            b_n := S n |}
  else Some st.

(** The state [commit_tx] starts emitting outputs from. *)
Definition initial_build (stale : stale_memory) (untrimmed : nat) : build :=
  let tx := new_bitcoin_tx 1 (untrimmed + 2) 0 in
  {| b_tx := tx;
     b_htlcmap := tal_arr (stale_htlcmap stale) (outputs_allocation_len (wtx tx));
     b_cltvs := tal_arr (stale_cltvs stale) (outputs_allocation_len (wtx tx));
     b_n := 0%nat |}.

(** The two loops: steps 3 and 4. *)
Definition emit_htlcs (htlcs : list htlc_ptr) (st : build) : build :=
  fold_left received_iter htlcs (fold_left offered_iter htlcs st).

(** Steps 3 to 6, from the allocation of [tx] to the last [n++]. *)
Definition emit_outputs (stale : stale_memory) (untrimmed : nat)
    (self_pay other_pay : amount_msat) (htlcs : list htlc_ptr) : option build :=
  add_to_remote other_pay
    (add_to_local self_pay (emit_htlcs htlcs (initial_build stale untrimmed))).

(** Body of the loop that finds the direct outputs. *)
Definition locate_iter (st : list htlc_ptr * (option nat * option nat)) (i : nat)
    : list htlc_ptr * (option nat * option nat) :=
  let '(htlcmap, (to_us, to_them)) := st in
  if bool_decide (default NULL (htlcmap !! i) = dummy_to_local) then
    (<[i := NULL]> htlcmap, (Some i, to_them))
  else if bool_decide (default NULL (htlcmap !! i) = dummy_to_remote) then
    (<[i := NULL]> htlcmap, (to_us, Some i))
  else st.

Definition locate_direct_outputs (tx : bitcoin_tx) (htlcmap : list htlc_ptr)
    : list htlc_ptr * option (option nat * option nat) :=
  if direct_outputs then
    let '(m, d) := fold_left locate_iter (seq 0 (num_outputs (wtx tx)))
                             (htlcmap, (None, None)) in
    (m, Some d)
  else (htlcmap, None).
End Call.

(** [commit_tx], its parameters in the order of the C function.  The first
    two stand for the memory the call works in: the HTLC objects behind the
    pointers and the content of fresh allocations.  [ctx] and the global
    [chainparams] only place allocations and are left out; [*htlcmap] and
    [direct_outputs], which the C function fills in for its caller, are
    part of the result, and the parameter [direct_outputs] only says whether
    the caller passed an array.  The block under [PRINT_ACTUAL_FEE] is not
    part of a normal build and is not modelled. *)
Definition commit_tx (mem : htlc_store) (stale : stale_memory)
    (funding_txid : bytes) (funding_txout : Z) (funding : amount_sat)
    (opener : side) (to_self_delay : Z) (ks : keyset) (feerate_per_kw : Z)
    (dust_limit : amount_sat) (self_pay other_pay : amount_msat)
    (htlcs : list htlc_ptr) (direct_outputs : bool)
    (obscured_commitment_number : Z) (side0 : side)
    : option commit_result :=
  total_pay ← amount_msat_add self_pay other_pay;
  c_assert (negb (amount_msat_greater_sat total_pay funding));;
  let untrimmed := commit_tx_num_untrimmed mem htlcs feerate_per_kw dust_limit side0 in
  let base_fee := commit_tx_base_fee feerate_per_kw untrimmed in
  let '(self_pay, other_pay) :=
    try_subtract_fee opener side0 base_fee self_pay other_pay in
  st ← emit_outputs mem ks feerate_per_kw dust_limit side0 to_self_delay
         direct_outputs stale untrimmed self_pay other_pay htlcs;
  let tx := b_tx st in
  let n := b_n st in
  c_assert (0 <? n)%nat;;
  c_assert (n <=? outputs_allocation_len (wtx tx))%nat;;
  let htlcmap := take n (b_htlcmap st) in
  let '(tx, cltvs, htlcmap) := permute_outputs tx (b_cltvs st) htlcmap in
  c_assert (version (wtx tx) =? 2);;
  let tx := set_locktime tx
    (Z.lor 0x20000000 (Z.land obscured_commitment_number 0xFFFFFF) mod u32_max) in
  let sequence0 :=
    Z.lor 0x80000000 (Z.land (Z.shiftr obscured_commitment_number 24) 0xFFFFFF)
    mod u32_max in
  let tx := bitcoin_tx_add_input tx funding_txid funding_txout sequence0 funding in
  let '(htlcmap, direct) := locate_direct_outputs direct_outputs tx htlcmap in
  let tx := bitcoin_tx_finalize tx in
  c_assert (bitcoin_tx_check tx);;
  Some {| res_tx := tx; res_htlcmap := htlcmap; res_direct_outputs := direct |}.
End Builder.

(** ** A concrete configuration

    One instance of the collaborators and one small channel, used to run
    the builder on concrete inputs. *)
Module Fixture.

Definition ceil_div_1000 (z : Z) : Z := (z + 999) / 1000.

(** Modelled from the spec: [commit_tx_base_fee] (section 4.2), the fee of
    a fixed base weight plus a fixed weight per HTLC output, rounded up;
    the weights are the published pair 724 and 172. *)
Definition base_fee (feerate_per_kw : Z) (num_untrimmed_htlcs : nat) : amount_sat :=
  AMOUNT_SAT (ceil_div_1000 ((724 + 172 * Z.of_nat num_untrimmed_htlcs) * feerate_per_kw)).

(** Modelled from the spec: [htlc_is_trimmed] (section 4.1); an HTLC is
    trimmed when its value in satoshis, net of the cost of the transaction
    that would claim it (weight 663 for an offered one, 703 for a received
    one), does not exceed the dust limit. *)
Definition is_trimmed (htlc_owner0 : side) (amt : amount_msat) (feerate_per_kw : Z)
    (dust_limit : amount_sat) (side0 : side) : bool :=
  let weight := if decide (htlc_owner0 = side0) then 663 else 703 in
  let cost := ceil_div_1000 (weight * feerate_per_kw) in
  satoshis (amount_msat_to_sat_round_down amt) - cost <=? satoshis dust_limit.

(** Stand-ins for the script library: tagged concatenations. *)
Global Instance collaborators : Collaborators := {|
  ripemd160 := take 20;
  htlc_offered_wscript := fun r ks => 0x76 :: r ++ self_htlc_key ks;
  htlc_received_wscript := fun r e ks => 0x77 :: e :: r ++ other_htlc_key ks;
  to_self_wscript := fun d ks => 0x63 :: d :: self_delayed_payment_key ks;
  scriptpubkey_p2wsh := fun w => 0 :: 32 :: w;
  scriptpubkey_p2wpkh := fun k => 0 :: 20 :: k;
  htlc_is_trimmed := is_trimmed;
  commit_tx_base_fee := base_fee
|}.

Definition keys : keyset :=
  {| self_revocation_key := [1]; self_htlc_key := [2]; other_htlc_key := [3];
     self_delayed_payment_key := [4]; self_payment_key := [5];
     other_payment_key := [6] |}.

(** Three HTLCs in memory: two offered by the local side, one by the
    remote side; the second is below the trimming threshold. *)
Definition store : htlc_store := fun p =>
  if p =? 4096 then
    {| htlc_id := 0; amount := AMOUNT_MSAT 5000000; rhash := [7; 7]; expiry := 500; owner := LOCAL |}
  else if p =? 4160 then
    {| htlc_id := 1; amount := AMOUNT_MSAT 600000; rhash := [8; 8]; expiry := 501; owner := LOCAL |}
  else
    {| htlc_id := 2; amount := AMOUNT_MSAT 3000000; rhash := [9; 9]; expiry := 502; owner := REMOTE |}.

Definition htlcs : list htlc_ptr := [4096; 4160; 4224].

(** Left-over content of freshly allocated arrays. *)
Definition stale : stale_memory :=
  {| stale_htlcmap := fun i => 0xdead + Z.of_nat i; stale_cltvs := fun _ => 0xffff |}.

Definition stale' : stale_memory :=
  {| stale_htlcmap := fun _ => 0; stale_cltvs := fun i => Z.of_nat i |}.

Definition txid : bytes := [0xab; 0xcd].

Definition dust : amount_sat := AMOUNT_SAT 546.

Definition number : Z := 0x123456789abc.

(** Balances that, with the three HTLCs, add up to the funding. *)
Definition funding : amount_sat := AMOUNT_SAT 20000.
Definition self_pay : amount_msat := AMOUNT_MSAT 7000000.
Definition other_pay : amount_msat := AMOUNT_MSAT 4400000.

(** A call by the local side, which also opened the channel, with every
    argument fixed but the one that asks for the direct outputs, the
    funding, the balances and the HTLC list. *)
Definition run (direct_outputs : bool) (funding0 : amount_sat)
    (self_pay0 other_pay0 : amount_msat) (hs : list htlc_ptr) : option commit_result :=
  commit_tx store stale txid 0 funding0 LOCAL 144 keys 253 dust
            self_pay0 other_pay0 hs direct_outputs number LOCAL.

End Fixture.

(** ** The emitted outputs, in emission order

    What the two loops and steps 5 and 6 write, as one list of rows; the
    lemmas below show that the arrays of the builder hold exactly these. *)
Section Rows.
Context `{Collaborators}.
Variable mem : htlc_store.
Variable ks : keyset.
Variable feerate_per_kw : Z.
Variable dust_limit : amount_sat.
Variable side0 : side.
Variable to_self_delay : Z.
Variable direct_outputs : bool.
Variable stale : stale_memory.

Definition is_offered (p : htlc_ptr) : bool :=
  bool_decide (htlc_owner (mem p) = side0).

Definition untrimmed_htlc (p : htlc_ptr) : bool :=
  negb (trim (mem p) feerate_per_kw dust_limit side0).

Definition offered_out (p : htlc_ptr) : wally_tx_output :=
  {| satoshi := millisatoshis (amount (mem p)) / 1000;
     script := scriptpubkey_p2wsh
                 (htlc_offered_wscript (ripemd160 (rhash (mem p))) ks) |}.

Definition received_out (p : htlc_ptr) : wally_tx_output :=
  {| satoshi := millisatoshis (amount (mem p)) / 1000;
     script := scriptpubkey_p2wsh
                 (htlc_received_wscript (ripemd160 (rhash (mem p)))
                                        (expiry (mem p)) ks) |}.

(** The output an untrimmed HTLC gets. *)
Definition htlc_out (p : htlc_ptr) : wally_tx_output :=
  if is_offered p then offered_out p else received_out p.

Definition to_local_out (self_pay : amount_msat) : wally_tx_output :=
  {| satoshi := millisatoshis self_pay / 1000;
     script := scriptpubkey_p2wsh (to_self_wscript to_self_delay ks) |}.

Definition to_remote_out (other_pay : amount_msat) : wally_tx_output :=
  {| satoshi := millisatoshis other_pay / 1000;
     script := scriptpubkey_p2wpkh (other_payment_key ks) |}.

Definition offered_row (p : htlc_ptr) : out_row :=
  {| row_out := offered_out p;
     row_wit := Some (htlc_offered_wscript (ripemd160 (rhash (mem p))) ks);
     row_cltv := expiry (mem p);
     row_map := p |}.

Definition received_row (p : htlc_ptr) : out_row :=
  {| row_out := received_out p;
     row_wit := Some (htlc_received_wscript (ripemd160 (rhash (mem p)))
                                            (expiry (mem p)) ks);
     row_cltv := expiry (mem p);
     row_map := p |}.

(** [cltvs[n]] is never assigned for the two balance outputs: the row
    carries what the array held at that index. *)
Definition local_row (n : nat) (self_pay : amount_msat) : out_row :=
  {| row_out := to_local_out self_pay;
     row_wit := Some (to_self_wscript to_self_delay ks);
     row_cltv := stale_cltvs stale n;
     row_map := if direct_outputs then dummy_to_local else NULL |}.

Definition remote_row (n : nat) (other_pay : amount_msat) : out_row :=
  {| row_out := to_remote_out other_pay;
     row_wit := None;
     row_cltv := stale_cltvs stale n;
     row_map := if direct_outputs then dummy_to_remote else NULL |}.

Fixpoint offered_rows (hs : list htlc_ptr) : list out_row :=
  match hs with
  | [] => []
  | p :: hs' =>
      if is_offered p && untrimmed_htlc p
      then offered_row p :: offered_rows hs'
      else offered_rows hs'
  end.

Fixpoint received_rows (hs : list htlc_ptr) : list out_row :=
  match hs with
  | [] => []
  | p :: hs' =>
      if negb (is_offered p) && untrimmed_htlc p
      then received_row p :: received_rows hs'
      else received_rows hs'
  end.

Definition htlc_rows (hs : list htlc_ptr) : list out_row :=
  offered_rows hs ++ received_rows hs.

Definition local_rows (n : nat) (self_pay : amount_msat) : list out_row :=
  if amount_msat_greater_eq_sat self_pay dust_limit
  then [local_row n self_pay] else [].

Definition remote_rows (n : nat) (other_pay : amount_msat) : list out_row :=
  if amount_msat_greater_eq_sat other_pay dust_limit
  then [remote_row n other_pay] else [].

Definition emitted_rows (self_pay other_pay : amount_msat)
    (hs : list htlc_ptr) : list out_row :=
  let hr := htlc_rows hs in
  let lr := hr ++ local_rows (length hr) self_pay in
  lr ++ remote_rows (length lr) other_pay.

(** The builder state that holds [rows] in arrays of capacity [cap]. *)
Definition build_of (cap : nat) (rows : list out_row) : build :=
  let n := length rows in
  {| b_tx := {| wtx := {| version := 2; locktime := 0; inputs := [];
                          outputs := row_out <$> rows;
                          outputs_allocation_len := cap |};
                input_amounts := [];
                output_witscripts :=
                  (row_wit <$> rows) ++ drop n (replicate cap None) |};
     b_htlcmap := (row_map <$> rows) ++ drop n (tal_arr (stale_htlcmap stale) cap);
     b_cltvs := (row_cltv <$> rows) ++ drop n (tal_arr (stale_cltvs stale) cap);
     b_n := n |}.
End Rows.

(** What the scan for the direct outputs leaves in a map entry. *)
Definition clear_tag (p : htlc_ptr) : htlc_ptr :=
  if bool_decide (p = dummy_to_local) then NULL
  else if bool_decide (p = dummy_to_remote) then NULL
  else p.

(** Sum of the output amounts of a transaction, in satoshis. *)
Definition sum_output_amounts (tx : bitcoin_tx) : Z :=
  foldr Z.add 0 (satoshi <$> outputs (wtx tx)).

(** Sum of the amounts of a list of HTLCs, in millisatoshis. *)
Definition sum_htlc_msat (mem : htlc_store) (hs : list htlc_ptr) : Z :=
  foldr Z.add 0 ((fun p => millisatoshis (amount (mem p))) <$> hs).

(** A pointer to a real [struct htlc]: no object lives at address 0, 1 or 2. *)
Definition genuine (p : htlc_ptr) : Prop :=
  p <> NULL /\ p <> dummy_to_local /\ p <> dummy_to_remote.

(** The order of the outputs alone: amount, then script. *)
Definition output_le (a b : wally_tx_output) : Prop := output_cmp a b <> Gt.

Definition row_le (a b : out_row) : Prop := row_cmp a b <> Gt.

(** Distinct witness scripts get distinct locking scripts, and a
    pay-to-script output never reads as a pay-to-key output. *)
Definition scripts_injective `{Collaborators} : Prop :=
  (forall w1 w2, scriptpubkey_p2wsh w1 = scriptpubkey_p2wsh w2 -> w1 = w2)
  /\ (forall w k, scriptpubkey_p2wsh w <> scriptpubkey_p2wpkh k).

(** The transaction [commit_tx] returns when the sorted rows are [rows]. *)
Definition assemble (rows : list out_row) (cap : nat) (funding_txid : bytes)
    (funding_txout : Z) (funding : amount_sat) (obscured_commitment_number : Z)
    : bitcoin_tx :=
  {| wtx := {| version := 2;
               locktime :=
                 Z.lor 0x20000000 (Z.land obscured_commitment_number 0xFFFFFF)
                 mod u32_max;
               inputs :=
                 [ {| txhash := funding_txid; index := funding_txout;
                      sequence :=
                        Z.lor 0x80000000
                          (Z.land (Z.shiftr obscured_commitment_number 24) 0xFFFFFF)
                        mod u32_max |} ];
               outputs := row_out <$> rows;
               outputs_allocation_len := cap |};
     input_amounts := [funding];
     output_witscripts := row_wit <$> rows |}.

(** What the scan for the direct outputs has done after its first [k]
    rounds on the map [m]. *)
Definition located (m : list htlc_ptr) (k : nat)
    (st : list htlc_ptr * (option nat * option nat)) : Prop :=
  st.1 = (clear_tag <$> take k m) ++ drop k m
  /\ match st.2.1 with
     | Some i => m !! i = Some dummy_to_local
     | None => dummy_to_local ∉ take k m
     end
  /\ match st.2.2 with
     | Some i => m !! i = Some dummy_to_remote
     | None => dummy_to_remote ∉ take k m
     end.

(** The three kinds of row a call emits, told apart by what they carry. *)
Section RowKinds.
Context `{Collaborators}.
Variable mem : htlc_store.
Variable ks : keyset.
Variable feerate_per_kw : Z.
Variable dust_limit : amount_sat.
Variable side0 : side.
Variable to_self_delay : Z.
Variable direct_outputs : bool.

Definition htlc_row_of (hs : list htlc_ptr) (r : out_row) : Prop :=
  exists p, p ∈ hs
    /\ untrimmed_htlc mem feerate_per_kw dust_limit side0 p = true
    /\ row_map r = p
    /\ row_out r = htlc_out mem ks side0 p.

Definition local_row_of (self_pay : amount_msat) (r : out_row) : Prop :=
  amount_msat_greater_eq_sat self_pay dust_limit = true
  /\ row_map r = (if direct_outputs then dummy_to_local else NULL)
  /\ row_out r = to_local_out ks to_self_delay self_pay.

Definition remote_row_of (other_pay : amount_msat) (r : out_row) : Prop :=
  amount_msat_greater_eq_sat other_pay dust_limit = true
  /\ row_map r = (if direct_outputs then dummy_to_remote else NULL)
  /\ row_out r = to_remote_out ks other_pay.

Definition row_ok (self_pay other_pay : amount_msat) (hs : list htlc_ptr)
    (r : out_row) : Prop :=
  htlc_row_of hs r \/ local_row_of self_pay r \/ remote_row_of other_pay r.

(** A row's witness script is the one its locking script was made from;
    a pay-to-key output has none. *)
Definition wit_ok (r : out_row) : Prop :=
  (exists w, script (row_out r) = scriptpubkey_p2wsh w /\ row_wit r = Some w)
  \/ (exists k, script (row_out r) = scriptpubkey_p2wpkh k /\ row_wit r = None).
End RowKinds.

(** Sum of the amounts of the untrimmed HTLCs, each truncated to satoshis. *)
Definition sum_untrimmed_sat `{Collaborators} (mem : htlc_store)
    (feerate_per_kw : Z) (dust_limit : amount_sat) (side0 : side)
    (hs : list htlc_ptr) : Z :=
  foldr Z.add 0
    ((fun p => millisatoshis (amount (mem p)) / 1000)
       <$> List.filter (untrimmed_htlc mem feerate_per_kw dust_limit side0) hs).

Definition sum_rows (l : list out_row) : Z :=
  foldr Z.add 0 ((fun r => satoshi (row_out r)) <$> l).

(** ** A channel with two HTLCs that yield the same output

    Two HTLCs offered by the local side with the same amount and payment
    hash and different expiries: the offered script does not mention the
    expiry, so their outputs are equal. *)
Module TieFixture.

Definition store : htlc_store := fun p =>
  if p =? 8192 then
    {| htlc_id := 0; amount := AMOUNT_MSAT 4000000; rhash := [5; 5]; expiry := 700; owner := LOCAL |}
  else
    {| htlc_id := 1; amount := AMOUNT_MSAT 4000000; rhash := [5; 5]; expiry := 600; owner := LOCAL |}.

Definition htlcs : list htlc_ptr := [8192; 8256].

Definition run : option commit_result :=
  commit_tx (H := Fixture.collaborators) store Fixture.stale Fixture.txid 0
            (AMOUNT_SAT 30000) LOCAL 144 Fixture.keys 253 Fixture.dust
            (AMOUNT_MSAT 12000000) (AMOUNT_MSAT 10000000) htlcs true
            Fixture.number LOCAL.

End TieFixture.

(** * Properties *)

(** ** The canonical order *)

Lemma lex_Eq c1 c2 : lex c1 c2 = Eq -> c1 = Eq /\ c2 = Eq.
Proof. destruct c1; simpl; intros E; try discriminate; auto. Qed.

Lemma lex_opp c1 c2 : lex (CompOpp c1) (CompOpp c2) = CompOpp (lex c1 c2).
Proof. by destruct c1. Qed.

Lemma script_cmp_eq a : forall b, script_cmp a b = Eq -> a = b.
Proof.
  induction a as [|x a IH]; intros [|y b]; simpl; try done.
  intros E. apply lex_Eq in E as [E1 E2].
  apply Z.compare_eq in E1. f_equal; auto.
Qed.

Lemma script_cmp_opp a : forall b, script_cmp b a = CompOpp (script_cmp a b).
Proof.
  induction a as [|x a IH]; intros [|y b]; simpl; try done.
  rewrite (Z.compare_antisym x y), IH. apply lex_opp.
Qed.

Lemma script_cmp_lt_trans a : forall b c,
  script_cmp a b = Lt -> script_cmp b c = Lt -> script_cmp a c = Lt.
Proof.
  induction a as [|x a IH]; intros [|y b] [|z c]; simpl; try done.
  destruct (Z.compare_spec x y) as [->|Hxy|Hxy]; simpl; try done.
  - destruct (y ?= z); simpl; eauto.
  - intros _. destruct (Z.compare_spec y z) as [->|Hyz|Hyz]; simpl; try done.
    + intros _. by rewrite (proj2 (Z.compare_lt_iff x z)) by lia.
    + intros _. by rewrite (proj2 (Z.compare_lt_iff x z)) by lia.
Qed.

Lemma output_cmp_eq a b : output_cmp a b = Eq -> a = b.
Proof.
  destruct a as [sa ca], b as [sb cb]. unfold output_cmp; simpl.
  intros E. apply lex_Eq in E as [E1 E2].
  apply Z.compare_eq in E1. apply script_cmp_eq in E2. by subst.
Qed.

Lemma output_cmp_opp a b : output_cmp b a = CompOpp (output_cmp a b).
Proof.
  unfold output_cmp.
  rewrite (Z.compare_antisym (satoshi a)), (script_cmp_opp (script a)).
  apply lex_opp.
Qed.

Lemma output_cmp_lt_trans a b c :
  output_cmp a b = Lt -> output_cmp b c = Lt -> output_cmp a c = Lt.
Proof.
  unfold output_cmp.
  destruct (Z.compare_spec (satoshi a) (satoshi b)) as [Eab|Hab|Hab];
    simpl; try done.
  - rewrite Eab. destruct (satoshi b ?= satoshi c); simpl; try done.
    apply script_cmp_lt_trans.
  - intros _.
    destruct (Z.compare_spec (satoshi b) (satoshi c)) as [Ebc|Hbc|Hbc];
      simpl; try done; intros _;
      by rewrite (proj2 (Z.compare_lt_iff (satoshi a) (satoshi c))) by lia.
Qed.

Global Instance output_le_trans : Transitive output_le.
Proof.
  intros a b c Hab Hbc. unfold output_le in *.
  destruct (output_cmp a b) eqn:Eab; try done.
  - apply output_cmp_eq in Eab. by subst.
  - destruct (output_cmp b c) eqn:Ebc; try done.
    + apply output_cmp_eq in Ebc. subst. by rewrite Eab.
    + by rewrite (output_cmp_lt_trans a b c).
Qed.

Global Instance output_le_antisym : AntiSymm (=) output_le.
Proof.
  intros a b Hab Hba. unfold output_le in *.
  rewrite (output_cmp_opp a b) in Hba.
  destruct (output_cmp a b) eqn:E; try done.
  by apply output_cmp_eq.
Qed.

Lemma row_cmp_opp a b : row_cmp b a = CompOpp (row_cmp a b).
Proof.
  unfold row_cmp.
  rewrite (output_cmp_opp (row_out a)), (Z.compare_antisym (row_cltv a)).
  apply lex_opp.
Qed.

Lemma row_leb_total a b : row_leb a b = false -> row_leb b a = true.
Proof.
  unfold row_leb. rewrite (row_cmp_opp a b).
  by destruct (row_cmp a b).
Qed.

Lemma row_leb_le a b : row_leb a b = true -> row_le a b.
Proof. unfold row_leb, row_le. by destruct (row_cmp a b). Qed.

Lemma row_le_output_le a b : row_le a b -> output_le (row_out a) (row_out b).
Proof.
  unfold row_le, output_le, row_cmp.
  by destruct (output_cmp (row_out a) (row_out b)).
Qed.

(** ** The sort *)

Lemma place_perm r l : place r l ≡ₚ r :: l.
Proof.
  induction l as [|y l IH]; simpl; [done|].
  destruct (row_leb r y); [done|].
  rewrite IH. apply Permutation_swap.
Qed.

Lemma sort_rows_perm l : sort_rows l ≡ₚ l.
Proof.
  induction l as [|x l IH]; simpl; [done|].
  unfold sort_rows in *. simpl. by rewrite place_perm, IH.
Qed.

Lemma place_HdRel x r l :
  row_le x r -> HdRel row_le x l -> HdRel row_le x (place r l).
Proof.
  intros Hxr Hl. destruct l as [|y l]; simpl.
  - by constructor.
  - destruct (row_leb r y); constructor; auto. by inv Hl.
Qed.

Lemma place_sorted r l : Sorted row_le l -> Sorted row_le (place r l).
Proof.
  induction 1 as [|y l Hs IH Hhd]; simpl.
  - by repeat constructor.
  - destruct (row_leb r y) eqn:E.
    + constructor; [by constructor|]. constructor. by apply row_leb_le.
    + constructor; [done|]. apply place_HdRel; [|done].
      by apply row_leb_le, row_leb_total.
Qed.

Lemma sort_rows_sorted l : Sorted row_le (sort_rows l).
Proof.
  induction l as [|x l IH]; [constructor|].
  by apply place_sorted.
Qed.

Lemma sort_rows_length l : length (sort_rows l) = length l.
Proof. by rewrite sort_rows_perm. Qed.

(** Two lists of rows with the same content sort to the same outputs. *)
Lemma sorted_outputs_unique l1 l2 :
  row_out <$> l1 ≡ₚ row_out <$> l2 ->
  row_out <$> sort_rows l1 = row_out <$> sort_rows l2.
Proof.
  intros Hp.
  apply (Sorted_unique output_le).
  - eapply Sorted_fmap; [apply row_le_output_le|apply sort_rows_sorted].
  - eapply Sorted_fmap; [apply row_le_output_le|apply sort_rows_sorted].
  - by rewrite !sort_rows_perm.
Qed.

(** ** Arrays written at the next free index *)

Lemma array_write {A} (l1 init : list A) (n : nat) (x y : A) :
  length l1 = n -> init !! n = Some y ->
  <[n := x]> (l1 ++ drop n init) = (l1 ++ [x]) ++ drop (S n) init.
Proof.
  intros Hn Hy. rewrite (drop_S _ _ _ Hy).
  rewrite insert_app_r_alt by lia.
  replace (n - length l1)%nat with 0%nat by lia.
  simpl. by rewrite <- app_assoc.
Qed.

Lemma array_keep {A} (l1 init : list A) (n : nat) (y : A) :
  init !! n = Some y ->
  l1 ++ drop n init = (l1 ++ [y]) ++ drop (S n) init.
Proof. intros Hy. rewrite (drop_S _ _ _ Hy). by rewrite <- app_assoc. Qed.

Lemma tal_arr_lookup {A} (stale : nat -> A) (len n : nat) :
  (n < len)%nat -> tal_arr stale len !! n = Some (stale n).
Proof.
  intros Hn. unfold tal_arr.
  by rewrite list_lookup_fmap, lookup_seq_lt.
Qed.

Lemma tal_arr_length {A} (stale : nat -> A) (len : nat) :
  length (tal_arr stale len) = len.
Proof. unfold tal_arr. by rewrite length_fmap, length_seq. Qed.

(** ** The builder holds the emitted rows *)

Section BuilderFacts.
Context `{Collaborators}.
Variable mem : htlc_store.
Variable ks : keyset.
Variable feerate_per_kw : Z.
Variable dust_limit : amount_sat.
Variable side0 : side.
Variable to_self_delay : Z.
Variable direct_outputs : bool.
Variable stale : stale_memory.

Local Abbreviation buildOf := (build_of stale).
Local Abbreviation offeredIter := (offered_iter mem ks feerate_per_kw dust_limit side0).
Local Abbreviation receivedIter := (received_iter mem ks feerate_per_kw dust_limit side0).
Local Abbreviation offeredRows := (offered_rows mem ks feerate_per_kw dust_limit side0).
Local Abbreviation receivedRows := (received_rows mem ks feerate_per_kw dust_limit side0).
Local Abbreviation htlcRows := (htlc_rows mem ks feerate_per_kw dust_limit side0).
Local Abbreviation localRows := (local_rows ks dust_limit to_self_delay direct_outputs stale).
Local Abbreviation remoteRows := (remote_rows ks dust_limit direct_outputs stale).
Local Abbreviation emittedRows :=
  (emitted_rows mem ks feerate_per_kw dust_limit side0 to_self_delay direct_outputs stale).
Local Abbreviation numUntrimmed :=
  (commit_tx_num_untrimmed mem).

Lemma build_of_offered cap rows p :
  (length rows < cap)%nat ->
  is_offered mem side0 p && untrimmed_htlc mem feerate_per_kw dust_limit side0 p = true ->
  offeredIter (buildOf cap rows) p = buildOf cap (rows ++ [offered_row mem ks p]).
Proof.
  intros Hcap Hp. apply andb_prop in Hp as [Ho Hu].
  unfold offered_iter, is_offered, untrimmed_htlc in *.
  rewrite Ho. apply negb_true_iff in Hu. rewrite Hu. simpl.
  unfold build_of, add_offered_htlc_out, set_output_witscript; simpl.
  rewrite !fmap_app, !length_app; simpl.
  replace (length rows + 1)%nat with (S (length rows)) by lia.
  f_equal.
  - f_equal. eapply array_write; [by rewrite length_fmap|].
    by apply lookup_replicate_2.
  - eapply array_write; [by rewrite length_fmap|].
    by apply tal_arr_lookup.
  - eapply array_write; [by rewrite length_fmap|].
    by apply tal_arr_lookup.
Qed.

Lemma build_of_received cap rows p :
  (length rows < cap)%nat ->
  negb (is_offered mem side0 p) && untrimmed_htlc mem feerate_per_kw dust_limit side0 p = true ->
  receivedIter (buildOf cap rows) p = buildOf cap (rows ++ [received_row mem ks p]).
Proof.
  intros Hcap Hp. apply andb_prop in Hp as [Ho Hu].
  unfold received_iter, is_offered, untrimmed_htlc in *.
  apply negb_true_iff in Ho. rewrite Ho.
  apply negb_true_iff in Hu. rewrite Hu. simpl.
  unfold build_of, add_received_htlc_out, set_output_witscript; simpl.
  rewrite !fmap_app, !length_app; simpl.
  replace (length rows + 1)%nat with (S (length rows)) by lia.
  f_equal.
  - f_equal. eapply array_write; [by rewrite length_fmap|].
    by apply lookup_replicate_2.
  - eapply array_write; [by rewrite length_fmap|].
    by apply tal_arr_lookup.
  - eapply array_write; [by rewrite length_fmap|].
    by apply tal_arr_lookup.
Qed.

Lemma offered_iter_skip st p :
  is_offered mem side0 p && untrimmed_htlc mem feerate_per_kw dust_limit side0 p = false ->
  offeredIter st p = st.
Proof.
  unfold offered_iter, is_offered, untrimmed_htlc.
  destruct (bool_decide _); simpl; [|done].
  by destruct (trim _ _ _ _).
Qed.

Lemma received_iter_skip st p :
  negb (is_offered mem side0 p) && untrimmed_htlc mem feerate_per_kw dust_limit side0 p = false ->
  receivedIter st p = st.
Proof.
  unfold received_iter, is_offered, untrimmed_htlc.
  destruct (bool_decide _); simpl; [done|].
  by destruct (trim _ _ _ _).
Qed.

(** The first loop appends the rows of the offered, untrimmed HTLCs. *)
Lemma offered_loop cap hs : forall rows,
  (length rows + length (offeredRows hs) <= cap)%nat ->
  fold_left offeredIter hs (buildOf cap rows) = buildOf cap (rows ++ offeredRows hs).
Proof.
  induction hs as [|p hs IH]; intros rows Hcap; simpl in *.
  - by rewrite app_nil_r.
  - destruct (is_offered mem side0 p && untrimmed_htlc mem feerate_per_kw dust_limit side0 p)
      eqn:Hp; simpl in *.
    + rewrite build_of_offered by (done || lia).
      rewrite IH by (rewrite length_app; simpl; lia).
      by rewrite <- app_assoc.
    + rewrite offered_iter_skip by done. by apply IH.
Qed.

(** The second loop appends the rows of the received, untrimmed HTLCs. *)
Lemma received_loop cap hs : forall rows,
  (length rows + length (receivedRows hs) <= cap)%nat ->
  fold_left receivedIter hs (buildOf cap rows) = buildOf cap (rows ++ receivedRows hs).
Proof.
  induction hs as [|p hs IH]; intros rows Hcap; simpl in *.
  - by rewrite app_nil_r.
  - destruct (negb (is_offered mem side0 p) && untrimmed_htlc mem feerate_per_kw dust_limit side0 p)
      eqn:Hp; simpl in *.
    + rewrite build_of_received by (done || lia).
      rewrite IH by (rewrite length_app; simpl; lia).
      by rewrite <- app_assoc.
    + rewrite received_iter_skip by done. by apply IH.
Qed.

(** The count that sizes the fee is the number of rows the loops emit. *)
Lemma num_untrimmed_rows hs :
  numUntrimmed hs feerate_per_kw dust_limit side0 = length (htlcRows hs).
Proof.
  unfold commit_tx_num_untrimmed, htlc_rows.
  enough (forall k,
    fold_left (fun n p =>
      (n + Nat.b2n (negb (trim (mem p) feerate_per_kw dust_limit side0)))%nat) hs k
    = (k + length (offeredRows hs ++ receivedRows hs))%nat) as E by apply E.
  induction hs as [|p hs IH]; intros k; simpl; [lia|].
  rewrite IH. rewrite !length_app.
  unfold untrimmed_htlc.
  destruct (is_offered mem side0 p), (trim (mem p) feerate_per_kw dust_limit side0);
    simpl; rewrite ?length_app; simpl; lia.
Qed.

Lemma num_untrimmed_le hs :
  (numUntrimmed hs feerate_per_kw dust_limit side0 <= length hs)%nat.
Proof.
  rewrite num_untrimmed_rows. unfold htlc_rows. rewrite length_app.
  induction hs as [|p hs IH]; simpl; [lia|].
  destruct (is_offered mem side0 p), (untrimmed_htlc mem feerate_per_kw dust_limit side0 p);
    simpl; lia.
Qed.

Lemma initial_build_of cap : initial_build stale cap = buildOf (cap + 2) [].
Proof. done. Qed.

Lemma emit_htlcs_build_of hs :
  emit_htlcs mem ks feerate_per_kw dust_limit side0 hs
    (initial_build stale (numUntrimmed hs feerate_per_kw dust_limit side0))
  = buildOf (numUntrimmed hs feerate_per_kw dust_limit side0 + 2) (htlcRows hs).
Proof.
  unfold emit_htlcs. rewrite initial_build_of.
  pose proof (num_untrimmed_rows hs) as E. unfold htlc_rows in *.
  rewrite length_app in E.
  rewrite offered_loop by (simpl; lia).
  rewrite received_loop by (simpl; lia).
  done.
Qed.

Lemma add_to_local_build_of cap rows self_pay :
  (length rows < cap)%nat ->
  add_to_local ks dust_limit to_self_delay direct_outputs self_pay (buildOf cap rows)
  = buildOf cap (rows ++ localRows (length rows) self_pay).
Proof.
  intros Hcap. unfold add_to_local, local_rows.
  destruct (amount_msat_greater_eq_sat self_pay dust_limit); [|by rewrite app_nil_r].
  unfold build_of, set_output_witscript; simpl.
  rewrite !fmap_app, !length_app; simpl.
  replace (length rows + 1)%nat with (S (length rows)) by lia.
  f_equal.
  - f_equal. eapply array_write; [by rewrite length_fmap|].
    by apply lookup_replicate_2.
  - eapply array_write; [by rewrite length_fmap|].
    by apply tal_arr_lookup.
  - apply array_keep. by apply tal_arr_lookup.
Qed.

Lemma add_to_remote_build_of cap rows other_pay :
  (length rows < cap)%nat ->
  add_to_remote ks dust_limit direct_outputs other_pay (buildOf cap rows)
  = Some (buildOf cap (rows ++ remoteRows (length rows) other_pay)).
Proof.
  intros Hcap. unfold add_to_remote, remote_rows.
  destruct (amount_msat_greater_eq_sat other_pay dust_limit); [|by rewrite app_nil_r].
  simpl. unfold num_outputs; simpl. rewrite length_fmap, Nat.eqb_refl. simpl.
  f_equal. unfold build_of; simpl.
  rewrite !fmap_app, !length_app; simpl.
  replace (length rows + 1)%nat with (S (length rows)) by lia.
  f_equal.
  - f_equal. apply array_keep. by apply lookup_replicate_2.
  - eapply array_write; [by rewrite length_fmap|].
    by apply tal_arr_lookup.
  - apply array_keep. by apply tal_arr_lookup.
Qed.

Lemma emitted_rows_length self_pay other_pay hs :
  length (emittedRows self_pay other_pay hs)
  = (numUntrimmed hs feerate_per_kw dust_limit side0
     + Nat.b2n (amount_msat_greater_eq_sat self_pay dust_limit)
     + Nat.b2n (amount_msat_greater_eq_sat other_pay dust_limit))%nat.
Proof.
  unfold emitted_rows, local_rows, remote_rows.
  rewrite !length_app, num_untrimmed_rows.
  by destruct (amount_msat_greater_eq_sat self_pay dust_limit),
            (amount_msat_greater_eq_sat other_pay dust_limit).
Qed.

(** Steps 3 to 6 never fail and leave the emitted rows in the arrays. *)
Lemma emit_outputs_build_of self_pay other_pay hs :
  emit_outputs mem ks feerate_per_kw dust_limit side0 to_self_delay direct_outputs
    stale (numUntrimmed hs feerate_per_kw dust_limit side0) self_pay other_pay hs
  = Some (buildOf (numUntrimmed hs feerate_per_kw dust_limit side0 + 2)
                  (emittedRows self_pay other_pay hs)).
Proof.
  unfold emit_outputs. rewrite emit_htlcs_build_of.
  pose proof (num_untrimmed_rows hs) as E.
  rewrite add_to_local_build_of by lia.
  rewrite add_to_remote_build_of; [done|].
  rewrite length_app. unfold local_rows.
  destruct (amount_msat_greater_eq_sat self_pay dust_limit); simpl; lia.
Qed.
End BuilderFacts.

(** ** Permutation, scan and assembly *)

Lemma zip_rows_fmap rows : forall x y z,
  zip_rows (row_out <$> rows) ((row_wit <$> rows) ++ x)
           ((row_cltv <$> rows) ++ y) ((row_map <$> rows) ++ z) = rows.
Proof.
  induction rows as [|r rows IH]; intros x y z; simpl; [done|].
  rewrite IH. by destruct r.
Qed.

Lemma permute_outputs_build_of stale cap rows :
  permute_outputs (b_tx (build_of stale cap rows)) (b_cltvs (build_of stale cap rows))
                  (take (b_n (build_of stale cap rows))
                        (b_htlcmap (build_of stale cap rows)))
  = ({| wtx := {| version := 2; locktime := 0; inputs := [];
                  outputs := row_out <$> sort_rows rows;
                  outputs_allocation_len := cap |};
        input_amounts := [];
        output_witscripts :=
          (row_wit <$> sort_rows rows) ++ drop (length rows) (replicate cap None) |},
     (row_cltv <$> sort_rows rows)
       ++ drop (length rows) (tal_arr (stale_cltvs stale) cap),
     row_map <$> sort_rows rows).
Proof.
  unfold permute_outputs, build_of, num_outputs; simpl.
  rewrite (take_app_length' (row_map <$> rows)) by (by rewrite length_fmap).
  rewrite !length_fmap.
  assert (forall x y, zip_rows (row_out <$> rows) ((row_wit <$> rows) ++ x)
            ((row_cltv <$> rows) ++ y) (row_map <$> rows) = rows) as ->.
  { intros x y. rewrite <- (app_nil_r (row_map <$> rows)). apply zip_rows_fmap. }
  rewrite !drop_app_length' by (by rewrite length_fmap).
  rewrite (drop_ge (row_map <$> rows)) by (by rewrite length_fmap).
  by rewrite app_nil_r.
Qed.

Lemma locate_iter_located m k st :
  (k < length m)%nat -> located m k st -> located m (S k) (locate_iter st k).
Proof.
  intros Hk. destruct st as [mk [dl dr]]. intros (Hm & Hl & Hr); simpl in *.
  destruct (lookup_lt_is_Some_2 m k Hk) as [x Hx].
  assert (Hlen : length (clear_tag <$> take k m) = k).
  { rewrite length_fmap, length_take. lia. }
  assert (Hread : mk !! k = Some x).
  { rewrite Hm, lookup_app_r by lia.
    rewrite Hlen, Nat.sub_diag, lookup_drop. by rewrite Nat.add_0_r. }
  unfold locate_iter, located. rewrite Hread; simpl.
  rewrite (take_S_r _ _ _ Hx), fmap_app; simpl.
  destruct (bool_decide (x = dummy_to_local)) eqn:E1;
    [|destruct (bool_decide (x = dummy_to_remote)) eqn:E2]; simpl.
  - apply bool_decide_eq_true in E1. subst x. split; [|split].
    + rewrite Hm. by eapply array_write.
    + done.
    + destruct dr; [done|]. rewrite elem_of_app, list_elem_of_singleton.
      intros [?|?]; done.
  - apply bool_decide_eq_true in E2. apply bool_decide_eq_false in E1.
    subst x. split; [|split].
    + rewrite Hm. by eapply array_write.
    + destruct dl; [done|]. rewrite elem_of_app, list_elem_of_singleton.
      intros [?|?]; done.
    + done.
  - apply bool_decide_eq_false in E1. apply bool_decide_eq_false in E2.
    assert (clear_tag x = x) as ->.
    { unfold clear_tag. by rewrite !bool_decide_eq_false_2. }
    split; [|split].
    + rewrite Hm. by eapply array_keep.
    + destruct dl; [done|]. rewrite elem_of_app, list_elem_of_singleton.
      intros [?|?]; [done|congruence].
    + destruct dr; [done|]. rewrite elem_of_app, list_elem_of_singleton.
      intros [?|?]; [done|congruence].
Qed.

Lemma locate_loop_located m k :
  (k <= length m)%nat ->
  located m k (fold_left locate_iter (seq 0 k) (m, (None, None))).
Proof.
  induction k as [|k IH]; intros Hk.
  - unfold located; simpl. rewrite take_0, drop_0. simpl.
    repeat split; apply not_elem_of_nil.
  - rewrite seq_S, fold_left_app; simpl.
    apply locate_iter_located; [lia|]. apply IH. lia.
Qed.

(** The scan clears both tags everywhere and reports where it saw them. *)
Lemma locate_loop m :
  exists dl dr,
    fold_left locate_iter (seq 0 (length m)) (m, (None, None))
    = (clear_tag <$> m, (dl, dr))
    /\ match dl with
       | Some i => m !! i = Some dummy_to_local
       | None => dummy_to_local ∉ m
       end
    /\ match dr with
       | Some i => m !! i = Some dummy_to_remote
       | None => dummy_to_remote ∉ m
       end.
Proof.
  pose proof (locate_loop_located m (length m) (le_n _)) as Hloc.
  destruct (fold_left locate_iter _ _) as [m' [dl dr]].
  destruct Hloc as (Hm & Hl & Hr); simpl in *.
  rewrite firstn_all, drop_all, app_nil_r in *.
  exists dl, dr. by subst m'.
Qed.

(** ** [commit_tx] in terms of the emitted rows *)

Section CommitTxFacts.
Context `{Collaborators}.
Variable mem : htlc_store.
Variable ks : keyset.
Variable feerate_per_kw : Z.
Variable dust_limit : amount_sat.
Variable side0 : side.
Variable to_self_delay : Z.
Variable direct_outputs : bool.

Local Abbreviation emittedRows :=
  (emitted_rows mem ks feerate_per_kw dust_limit side0 to_self_delay direct_outputs).
Local Abbreviation numUntrimmed :=
  (fun hs => commit_tx_num_untrimmed mem hs feerate_per_kw dust_limit side0).

Lemma commit_tx_rows stale funding_txid funding_txout funding opener
    self_pay other_pay htlcs obscured_commitment_number :
  commit_tx mem stale funding_txid funding_txout funding opener to_self_delay ks
            feerate_per_kw dust_limit self_pay other_pay htlcs direct_outputs
            obscured_commitment_number side0
  = (total_pay ← amount_msat_add self_pay other_pay;
     c_assert (negb (amount_msat_greater_sat total_pay funding));;
     let untrimmed := numUntrimmed htlcs in
     let pays := try_subtract_fee opener side0
                   (commit_tx_base_fee feerate_per_kw untrimmed) self_pay other_pay in
     let rows := sort_rows (emittedRows stale pays.1 pays.2 htlcs) in
     c_assert (0 <? length rows)%nat;;
     let tx := assemble rows (untrimmed + 2) funding_txid funding_txout funding
                        obscured_commitment_number in
     let located := locate_direct_outputs direct_outputs tx (row_map <$> rows) in
     c_assert (bitcoin_tx_check tx);;
     Some {| res_tx := tx; res_htlcmap := located.1;
             res_direct_outputs := located.2 |}).
Proof.
  unfold commit_tx.
  destruct (amount_msat_add self_pay other_pay) as [total_pay|];
    cbn [mbind option_bind]; [|done].
  destruct (c_assert (negb (amount_msat_greater_sat total_pay funding)));
    cbn [mbind option_bind]; [|done].
  destruct (try_subtract_fee _ _ _ _ _) as [self' other'] eqn:Efee;
    cbn [fst snd].
  rewrite emit_outputs_build_of; cbn [mbind option_bind].
  rewrite permute_outputs_build_of.
  rewrite sort_rows_length.
  cbn [b_n b_tx build_of wtx outputs_allocation_len].
  destruct (c_assert (0 <? length _)%nat); cbn [mbind option_bind]; [|done].
  pose proof (emitted_rows_length mem ks feerate_per_kw dust_limit side0
                to_self_delay direct_outputs stale self' other' htlcs) as Hlen.
  assert ((length (emittedRows stale self' other' htlcs)
           <=? numUntrimmed htlcs + 2)%nat = true) as ->.
  { apply Nat.leb_le. rewrite Hlen.
    destruct (amount_msat_greater_eq_sat self' dust_limit),
             (amount_msat_greater_eq_sat other' dust_limit); simpl; lia. }
  simpl.
  unfold locate_direct_outputs, bitcoin_tx_add_input, set_locktime, num_outputs; simpl.
  set (rows := sort_rows (emittedRows stale self' other' htlcs)).
  assert (Hfin : forall tx, outputs (wtx tx) = row_out <$> rows ->
            output_witscripts tx
            = (row_wit <$> rows)
              ++ drop (length (emittedRows stale self' other' htlcs))
                      (replicate (numUntrimmed htlcs + 2) None) ->
            bitcoin_tx_finalize tx
            = {| wtx := wtx tx; input_amounts := input_amounts tx;
                 output_witscripts := row_wit <$> rows |}).
  { intros tx Ho Hw. unfold bitcoin_tx_finalize, num_outputs.
    rewrite Ho, Hw, length_fmap.
    by rewrite take_app_length' by (by rewrite length_fmap). }
  destruct direct_outputs.
  - destruct (fold_left locate_iter _ _) as [m d] eqn:Eloc.
    rewrite Hfin by done. simpl.
    done.
  - rewrite Hfin by done. simpl. done.
Qed.
End CommitTxFacts.

(** ** Bit fields of the obscured commitment number *)

Lemma testbit_low24 n : 0 <= n -> Z.testbit 0xFFFFFF n = (n <? 24).
Proof. intros Hn. change 0xFFFFFF with (Z.ones 24). by apply Z.testbit_ones_nonneg. Qed.

Lemma testbit_above z k n : 0 <= z < 2 ^ k -> k <= n -> Z.testbit z n = false.
Proof.
  intros [Hz Hlt] Hn.
  destruct (Z.eq_dec z 0) as [->|Hne]; [apply Z.bits_0|].
  apply Z.bits_above_log2; [done|].
  assert (Z.log2 z < k); [|lia].
  apply Z.log2_lt_pow2; lia.
Qed.

Ltac bits :=
  repeat first
    [ rewrite Z.lor_spec | rewrite Z.land_spec
    | rewrite Z.shiftl_spec by lia | rewrite Z.shiftr_spec by lia
    | rewrite testbit_low24 by lia ].

Lemma locktime_fits N :
  Z.lor 0x20000000 (Z.land N 0xFFFFFF) mod u32_max
  = Z.lor 0x20000000 (Z.land N 0xFFFFFF).
Proof.
  apply Z.bits_inj'. intros n Hn. unfold u32_max.
  rewrite Z.testbit_mod_pow2 by lia.
  destruct (Z.ltb_spec n 32); simpl; [done|].
  symmetry. bits.
  change 0x20000000 with (2 ^ 29). rewrite Z.pow2_bits_eqb by lia.
  destruct (Z.eqb_spec 29 n); [lia|].
  destruct (Z.ltb_spec n 24); [lia|]. by rewrite andb_false_r.
Qed.

Lemma sequence_fits N :
  Z.lor 0x80000000 (Z.land (Z.shiftr N 24) 0xFFFFFF) mod u32_max
  = Z.lor 0x80000000 (Z.land (Z.shiftr N 24) 0xFFFFFF).
Proof.
  apply Z.bits_inj'. intros n Hn. unfold u32_max.
  rewrite Z.testbit_mod_pow2 by lia.
  destruct (Z.ltb_spec n 32); simpl; [done|].
  symmetry. bits.
  change 0x80000000 with (2 ^ 31). rewrite Z.pow2_bits_eqb by lia.
  destruct (Z.eqb_spec 31 n); [lia|].
  destruct (Z.ltb_spec n 24); [lia|]. by rewrite andb_false_r.
Qed.

(** The two 24-bit halves put back together. *)
Lemma obscured_number_decode N :
  0 <= N < 2 ^ 48 ->
  Z.lor (Z.land (Z.lor 0x20000000 (Z.land N 0xFFFFFF)) 0xFFFFFF)
        (Z.shiftl (Z.land (Z.lor 0x80000000 (Z.land (Z.shiftr N 24) 0xFFFFFF))
                          0xFFFFFF) 24)
  = N.
Proof.
  intros HN. apply Z.bits_inj'. intros n Hn.
  destruct (Z.ltb_spec n 24) as [Hlo|Hhi].
  - rewrite Z.lor_spec, Z.shiftl_spec_low, orb_false_r by lia. bits.
    change 0x20000000 with (2 ^ 29). rewrite Z.pow2_bits_eqb by lia.
    destruct (Z.eqb_spec 29 n); [lia|].
    destruct (Z.ltb_spec n 24); [|lia].
    simpl. by rewrite !andb_true_r.
  - bits.
    destruct (Z.ltb_spec n 24); [lia|]. rewrite andb_false_r. simpl.
    change 0x80000000 with (2 ^ 31). rewrite Z.pow2_bits_eqb by lia.
    replace (n - 24 + 24) with n by lia.
    destruct (Z.ltb_spec (n - 24) 24) as [Hmid|Htop].
    + destruct (Z.eqb_spec 31 (n - 24)); [lia|].
      simpl. by rewrite !andb_true_r.
    + rewrite !andb_false_r. symmetry. apply (testbit_above N 48); lia.
Qed.

(** ** What a successful call returns *)

Section CallFacts.
Context `{Collaborators}.
Variable mem : htlc_store.
Variable ks : keyset.
Variable feerate_per_kw : Z.
Variable dust_limit : amount_sat.
Variable side0 : side.
Variable to_self_delay : Z.
Variable direct_outputs : bool.
Variable stale : stale_memory.
Variable funding_txid : bytes.
Variable funding_txout : Z.
Variable funding : amount_sat.
Variable opener : side.
Variable self_pay other_pay : amount_msat.
Variable htlcs : list htlc_ptr.
Variable obscured_commitment_number : Z.

Local Abbreviation call :=
  (commit_tx mem stale funding_txid funding_txout funding opener to_self_delay ks
            feerate_per_kw dust_limit self_pay other_pay htlcs direct_outputs
            obscured_commitment_number side0).
Local Abbreviation untrimmed :=
  (commit_tx_num_untrimmed mem htlcs feerate_per_kw dust_limit side0).
Local Abbreviation pays :=
  (try_subtract_fee opener side0 (commit_tx_base_fee feerate_per_kw untrimmed)
                    self_pay other_pay).
Local Abbreviation emitted :=
  (emitted_rows mem ks feerate_per_kw dust_limit side0 to_self_delay direct_outputs
                stale pays.1 pays.2 htlcs).
Local Abbreviation final_tx :=
  (assemble (sort_rows emitted) (untrimmed + 2) funding_txid funding_txout funding
            obscured_commitment_number).

Lemma c_assert_Some b : c_assert b = Some () <-> b = true.
Proof. destruct b; simpl; split; congruence. Qed.

Lemma commit_tx_Some r :
  call = Some r <->
  millisatoshis self_pay + millisatoshis other_pay < u64_max
  /\ millisatoshis self_pay + millisatoshis other_pay <= satoshis funding * 1000
  /\ (0 < length emitted)%nat
  /\ bitcoin_tx_check final_tx = true
  /\ r = {| res_tx := final_tx;
            res_htlcmap :=
              (locate_direct_outputs direct_outputs final_tx
                 (row_map <$> sort_rows emitted)).1;
            res_direct_outputs :=
              (locate_direct_outputs direct_outputs final_tx
                 (row_map <$> sort_rows emitted)).2 |}.
Proof.
  rewrite commit_tx_rows. unfold amount_msat_add.
  destruct (Z.ltb_spec (millisatoshis self_pay + millisatoshis other_pay) u64_max);
    cbn [mbind option_bind]; [|split; [done|lia]].
  unfold amount_msat_greater_sat; simpl.
  destruct (Z.ltb_spec (satoshis funding * 1000)
              (millisatoshis self_pay + millisatoshis other_pay));
    cbn [mbind option_bind negb c_assert]; [split; [done|lia]|].
  rewrite sort_rows_length.
  destruct (Nat.ltb_spec 0 (length emitted));
    cbn [mbind option_bind negb c_assert]; [|split; [done|lia]].
  destruct (bitcoin_tx_check final_tx);
    cbn [mbind option_bind negb c_assert]; [|split; [done|intros (_&_&_&?&_); done]].
  split.
  - intros [= <-]. done.
  - intros (_&_&_&_&->). done.
Qed.
End CallFacts.

(** ** The rows of a call *)

Section RowFacts.
Context `{Collaborators}.
Variable mem : htlc_store.
Variable ks : keyset.
Variable feerate_per_kw : Z.
Variable dust_limit : amount_sat.
Variable side0 : side.
Variable to_self_delay : Z.
Variable direct_outputs : bool.

Local Abbreviation offeredRows := (offered_rows mem ks feerate_per_kw dust_limit side0).
Local Abbreviation receivedRows := (received_rows mem ks feerate_per_kw dust_limit side0).
Local Abbreviation htlcRows := (htlc_rows mem ks feerate_per_kw dust_limit side0).
Local Abbreviation emittedRows :=
  (emitted_rows mem ks feerate_per_kw dust_limit side0 to_self_delay direct_outputs).
Local Abbreviation htlcRowOf := (htlc_row_of mem ks feerate_per_kw dust_limit side0).
Local Abbreviation rowOk :=
  (row_ok mem ks feerate_per_kw dust_limit side0 to_self_delay direct_outputs).
Local Abbreviation isUntrimmed := (untrimmed_htlc mem feerate_per_kw dust_limit side0).

Lemma htlc_row_of_mono hs hs' r :
  (forall p, p ∈ hs -> p ∈ hs') -> htlcRowOf hs r -> htlcRowOf hs' r.
Proof. intros Hsub (p & Hp & ?). exists p. split; auto. Qed.

Lemma offered_rows_ok hs : Forall (htlcRowOf hs) (offeredRows hs).
Proof.
  induction hs as [|p hs IH]; simpl; [constructor|].
  assert (Forall (htlcRowOf (p :: hs)) (offeredRows hs)) as IH'.
  { eapply Forall_impl; [exact IH|]. intros r.
    apply htlc_row_of_mono. intros q ?. by right. }
  destruct (is_offered mem side0 p) eqn:Ho, (isUntrimmed p) eqn:Hu; simpl; try done.
  constructor; [|done].
  exists p. repeat split; [by left|done|].
  unfold htlc_out. by rewrite Ho.
Qed.

Lemma received_rows_ok hs : Forall (htlcRowOf hs) (receivedRows hs).
Proof.
  induction hs as [|p hs IH]; simpl; [constructor|].
  assert (Forall (htlcRowOf (p :: hs)) (receivedRows hs)) as IH'.
  { eapply Forall_impl; [exact IH|]. intros r.
    apply htlc_row_of_mono. intros q ?. by right. }
  destruct (is_offered mem side0 p) eqn:Ho, (isUntrimmed p) eqn:Hu; simpl; try done.
  constructor; [|done].
  exists p. repeat split; [by left|done|].
  unfold htlc_out. by rewrite Ho.
Qed.

(** Every emitted row is an HTLC row, the [to_local] row or the
    [to_remote] row. *)
Lemma emitted_rows_ok stale self_pay other_pay hs :
  Forall (rowOk self_pay other_pay hs) (emittedRows stale self_pay other_pay hs).
Proof.
  unfold emitted_rows, htlc_rows, local_rows, remote_rows.
  rewrite !Forall_app. repeat split.
  - eapply Forall_impl; [apply offered_rows_ok|]. intros r ?. by left.
  - eapply Forall_impl; [apply received_rows_ok|]. intros r ?. by left.
  - destruct (amount_msat_greater_eq_sat self_pay dust_limit) eqn:E; [|constructor].
    constructor; [|constructor]. right; left. by repeat split.
  - destruct (amount_msat_greater_eq_sat other_pay dust_limit) eqn:E; [|constructor].
    constructor; [|constructor]. right; right. by repeat split.
Qed.

Lemma emitted_rows_wit_ok stale self_pay other_pay hs :
  Forall wit_ok (emittedRows stale self_pay other_pay hs).
Proof.
  unfold emitted_rows, htlc_rows, local_rows, remote_rows.
  rewrite !Forall_app. repeat split.
  - induction hs as [|p hs IH]; simpl; [constructor|].
    destruct (_ && _); [|done]. constructor; [|done]. left. eexists. by split.
  - induction hs as [|p hs IH]; simpl; [constructor|].
    destruct (_ && _); [|done]. constructor; [|done]. left. eexists. by split.
  - destruct (amount_msat_greater_eq_sat self_pay dust_limit); constructor; [|constructor].
    left. eexists. by split.
  - destruct (amount_msat_greater_eq_sat other_pay dust_limit); constructor; [|constructor].
    right. eexists. by split.
Qed.

(** The content of the rows does not depend on the order of the HTLC list. *)
Lemma offered_rows_perm hs hs' : hs ≡ₚ hs' -> offeredRows hs ≡ₚ offeredRows hs'.
Proof.
  induction 1 as [|p l l' _ IH|p q l|l l' l'' _ IH1 _ IH2]; simpl.
  - done.
  - destruct (_ && _); by rewrite IH.
  - destruct (is_offered mem side0 q && isUntrimmed q),
             (is_offered mem side0 p && isUntrimmed p); try done.
    apply Permutation_swap.
  - by rewrite IH1.
Qed.

Lemma received_rows_perm hs hs' : hs ≡ₚ hs' -> receivedRows hs ≡ₚ receivedRows hs'.
Proof.
  induction 1 as [|p l l' _ IH|p q l|l l' l'' _ IH1 _ IH2]; simpl.
  - done.
  - destruct (_ && _); by rewrite IH.
  - destruct (negb (is_offered mem side0 q) && isUntrimmed q),
             (negb (is_offered mem side0 p) && isUntrimmed p); try done.
    apply Permutation_swap.
  - by rewrite IH1.
Qed.

Lemma htlc_rows_perm hs hs' : hs ≡ₚ hs' -> htlcRows hs ≡ₚ htlcRows hs'.
Proof.
  intros Hp. unfold htlc_rows.
  by rewrite (offered_rows_perm _ _ Hp), (received_rows_perm _ _ Hp).
Qed.

Lemma num_untrimmed_perm hs hs' :
  hs ≡ₚ hs' ->
  commit_tx_num_untrimmed mem hs feerate_per_kw dust_limit side0
  = commit_tx_num_untrimmed mem hs' feerate_per_kw dust_limit side0.
Proof.
  intros Hp. rewrite !(num_untrimmed_rows _ ks).
  by rewrite (htlc_rows_perm _ _ Hp).
Qed.

(** The outputs emitted for two orders of the same HTLCs, whatever the
    scratch arrays held, are the same up to order. *)
Lemma emitted_outputs_perm stale stale' self_pay other_pay hs hs' :
  hs ≡ₚ hs' ->
  row_out <$> emittedRows stale self_pay other_pay hs
  ≡ₚ row_out <$> emittedRows stale' self_pay other_pay hs'.
Proof.
  intros Hp. unfold emitted_rows, local_rows, remote_rows.
  rewrite !fmap_app.
  apply Permutation_app; [apply Permutation_app|].
  - by apply fmap_Permutation, htlc_rows_perm.
  - by destruct (amount_msat_greater_eq_sat self_pay dust_limit).
  - by destruct (amount_msat_greater_eq_sat other_pay dust_limit).
Qed.

(** The pointers the loops store are the untrimmed HTLCs of the list. *)
Lemma htlc_rows_map hs :
  row_map <$> htlcRows hs ≡ₚ List.filter isUntrimmed hs.
Proof.
  unfold htlc_rows. rewrite fmap_app.
  induction hs as [|p hs IH]; simpl; [done|].
  destruct (is_offered mem side0 p), (isUntrimmed p); simpl; try done.
  - by rewrite IH.
  - rewrite <- IH. by rewrite Permutation_middle.
Qed.

Lemma sum_rows_perm l l' : l ≡ₚ l' -> sum_rows l = sum_rows l'.
Proof.
  unfold sum_rows.
  induction 1 as [|r l l' _ IH|r s l|l l' l'' _ IH1 _ IH2]; csimpl; lia.
Qed.

Lemma sum_rows_app l l' : sum_rows (l ++ l') = sum_rows l + sum_rows l'.
Proof.
  unfold sum_rows. induction l as [|r l IH]; csimpl in *; lia.
Qed.

Lemma sum_htlc_rows hs :
  sum_rows (htlcRows hs) = sum_untrimmed_sat mem feerate_per_kw dust_limit side0 hs.
Proof.
  unfold htlc_rows, sum_untrimmed_sat. rewrite sum_rows_app. unfold sum_rows.
  induction hs as [|p hs IH]; csimpl; [done|].
  destruct (is_offered mem side0 p), (isUntrimmed p); csimpl in *; lia.
Qed.
End RowFacts.

(** ** The returned map and slots *)

Lemma locate_direct_outputs_off tx m :
  locate_direct_outputs false tx m = (m, None).
Proof. done. Qed.

Lemma locate_direct_outputs_on tx m :
  num_outputs (wtx tx) = length m ->
  exists dl dr,
    locate_direct_outputs true tx m = (clear_tag <$> m, Some (dl, dr))
    /\ match dl with
       | Some i => m !! i = Some dummy_to_local
       | None => dummy_to_local ∉ m
       end
    /\ match dr with
       | Some i => m !! i = Some dummy_to_remote
       | None => dummy_to_remote ∉ m
       end.
Proof.
  intros Hlen. unfold locate_direct_outputs. rewrite Hlen.
  destruct (locate_loop m) as (dl & dr & -> & Hl & Hr).
  by exists dl, dr.
Qed.

Lemma clear_tag_cases p :
  (clear_tag p = NULL /\ (p = NULL \/ p = dummy_to_local \/ p = dummy_to_remote))
  \/ (clear_tag p = p /\ p <> NULL /\ p <> dummy_to_local /\ p <> dummy_to_remote).
Proof.
  unfold clear_tag.
  destruct (bool_decide_reflect (p = dummy_to_local)); [left; auto|].
  destruct (bool_decide_reflect (p = dummy_to_remote)); [left; auto|].
  destruct (decide (p = NULL)) as [->|]; [left; auto|right; auto].
Qed.

Section FinalRows.
Context `{Collaborators}.
Variable mem : htlc_store.
Variable ks : keyset.
Variable feerate_per_kw : Z.
Variable dust_limit : amount_sat.
Variable side0 : side.
Variable to_self_delay : Z.
Variable direct_outputs : bool.
Variable stale : stale_memory.
Variable funding_txid : bytes.
Variable funding_txout : Z.
Variable funding : amount_sat.
Variable opener : side.
Variable self_pay other_pay : amount_msat.
Variable htlcs : list htlc_ptr.
Variable obscured_commitment_number : Z.

Local Abbreviation call :=
  (commit_tx mem stale funding_txid funding_txout funding opener to_self_delay ks
            feerate_per_kw dust_limit self_pay other_pay htlcs direct_outputs
            obscured_commitment_number side0).
Local Abbreviation untrimmed :=
  (commit_tx_num_untrimmed mem htlcs feerate_per_kw dust_limit side0).
Local Abbreviation pays :=
  (try_subtract_fee opener side0 (commit_tx_base_fee feerate_per_kw untrimmed)
                    self_pay other_pay).
Local Abbreviation emitted :=
  (emitted_rows mem ks feerate_per_kw dust_limit side0 to_self_delay direct_outputs
                stale pays.1 pays.2 htlcs).
Local Abbreviation rowOk :=
  (row_ok mem ks feerate_per_kw dust_limit side0 to_self_delay direct_outputs
          pays.1 pays.2 htlcs).

(** The returned transaction and map are projections of one sorted list of
    rows, a permutation of the emitted ones. *)
Lemma commit_tx_final_rows r :
  call = Some r ->
  exists rows,
    rows ≡ₚ emitted
    /\ Sorted row_le rows
    /\ Forall rowOk rows
    /\ outputs (wtx (res_tx r)) = row_out <$> rows
    /\ output_witscripts (res_tx r) = row_wit <$> rows
    /\ res_htlcmap r
       = (if direct_outputs then clear_tag <$> (row_map <$> rows)
          else row_map <$> rows)
    /\ (if direct_outputs then
         exists dl dr, res_direct_outputs r = Some (dl, dr)
           /\ match dl with
              | Some i => (row_map <$> rows) !! i = Some dummy_to_local
              | None => dummy_to_local ∉ row_map <$> rows
              end
           /\ match dr with
              | Some i => (row_map <$> rows) !! i = Some dummy_to_remote
              | None => dummy_to_remote ∉ row_map <$> rows
              end
       else res_direct_outputs r = None).
Proof.
  intros Hcall. apply commit_tx_Some in Hcall as (_ & _ & _ & _ & ->).
  exists (sort_rows emitted). cbn [res_tx res_htlcmap res_direct_outputs].
  split; [apply sort_rows_perm|]. split; [apply sort_rows_sorted|].
  split; [rewrite sort_rows_perm; apply emitted_rows_ok|].
  split; [done|]. split; [done|].
  generalize (sort_rows emitted). intros rows.
  generalize (untrimmed + 2)%nat. intros cap.
  destruct direct_outputs.
  - edestruct (locate_direct_outputs_on
                 (assemble rows cap funding_txid
                           funding_txout funding obscured_commitment_number)
                 (row_map <$> rows)) as (dl & dr & -> & Hl & Hr).
    { unfold num_outputs; simpl. by rewrite !length_fmap. }
    split; [done|]. by exists dl, dr.
  - by rewrite locate_direct_outputs_off.
Qed.
End FinalRows.

(** ** Amounts *)

Section AmountFacts.
Context `{Collaborators}.
Variable mem : htlc_store.
Variable ks : keyset.
Variable feerate_per_kw : Z.
Variable dust_limit : amount_sat.
Variable side0 : side.
Variable to_self_delay : Z.
Variable direct_outputs : bool.

Local Abbreviation sumUntrimmed := (sum_untrimmed_sat mem feerate_per_kw dust_limit side0).

(** What a balance contributes to the outputs: its satoshis when it
    reaches the dust limit, nothing otherwise. *)
Lemma sum_emitted_rows stale self_pay other_pay hs :
  sum_rows (emitted_rows mem ks feerate_per_kw dust_limit side0 to_self_delay
                         direct_outputs stale self_pay other_pay hs)
  = sumUntrimmed hs
    + (if amount_msat_greater_eq_sat self_pay dust_limit
       then millisatoshis self_pay / 1000 else 0)
    + (if amount_msat_greater_eq_sat other_pay dust_limit
       then millisatoshis other_pay / 1000 else 0).
Proof.
  unfold emitted_rows, local_rows, remote_rows.
  rewrite !sum_rows_app, sum_htlc_rows.
  destruct (amount_msat_greater_eq_sat self_pay dust_limit),
           (amount_msat_greater_eq_sat other_pay dust_limit);
    unfold sum_rows; csimpl; lia.
Qed.

Lemma sum_output_amounts_rows tx rows :
  outputs (wtx tx) = row_out <$> rows -> sum_output_amounts tx = sum_rows rows.
Proof.
  intros Ho. unfold sum_output_amounts, sum_rows. rewrite Ho.
  by rewrite <- list_fmap_compose.
Qed.

(** Truncation and trimming only ever lose value. *)
Lemma sum_untrimmed_le hs :
  Forall (fun p => 0 <= millisatoshis (amount (mem p))) hs ->
  sumUntrimmed hs * 1000 <= sum_htlc_msat mem hs.
Proof.
  unfold sum_untrimmed_sat, sum_htlc_msat.
  induction 1 as [|p hs Hp _ IH]; csimpl; [lia|].
  pose proof (Z.mul_div_le (millisatoshis (amount (mem p))) 1000 ltac:(lia)).
  destruct (untrimmed_htlc mem feerate_per_kw dust_limit side0 p); csimpl; lia.
Qed.

(** Nothing is lost when no HTLC is trimmed and every amount is a whole
    number of satoshis. *)
Lemma sum_untrimmed_exact hs :
  Forall (fun p => trim (mem p) feerate_per_kw dust_limit side0 = false
                   /\ millisatoshis (amount (mem p)) mod 1000 = 0) hs ->
  sumUntrimmed hs * 1000 = sum_htlc_msat mem hs.
Proof.
  unfold sum_untrimmed_sat, sum_htlc_msat, untrimmed_htlc.
  induction 1 as [|p hs [Ht Hm] _ IH]; csimpl; [lia|].
  rewrite Ht; csimpl.
  pose proof (Z.div_mod (millisatoshis (amount (mem p))) 1000 ltac:(lia)).
  lia.
Qed.
End AmountFacts.

(** ** Witness scripts follow their outputs *)

Section WitFacts.
Context `{Collaborators}.

Lemma wit_ok_unique r1 r2 :
  scripts_injective -> wit_ok r1 -> wit_ok r2 ->
  row_out r1 = row_out r2 -> row_wit r1 = row_wit r2.
Proof.
  intros [Hinj Hsep] [(w1 & Hs1 & Hw1)|(k1 & Hs1 & Hw1)]
         [(w2 & Hs2 & Hw2)|(k2 & Hs2 & Hw2)] Ho;
    rewrite Ho in Hs1; rewrite Hs1 in Hs2; rewrite Hw1, Hw2.
  - f_equal. by apply Hinj.
  - exfalso. by apply (Hsep w1 k2).
  - exfalso. by apply (Hsep w2 k1).
  - done.
Qed.

Lemma wits_unique l1 : forall l2,
  scripts_injective -> Forall wit_ok l1 -> Forall wit_ok l2 ->
  row_out <$> l1 = row_out <$> l2 -> row_wit <$> l1 = row_wit <$> l2.
Proof.
  induction l1 as [|r1 l1 IH]; intros [|r2 l2] Hinj H1 H2 Ho; csimpl in *;
    try done.
  injection Ho as Ho1 Ho2.
  apply Forall_cons in H1 as [Hr1 H1]. apply Forall_cons in H2 as [Hr2 H2].
  f_equal; [by apply wit_ok_unique|by apply IH].
Qed.
End WitFacts.

(** ** Amounts of the outputs are valid *)

Section CheckFacts.
Context `{Collaborators}.
Variable mem : htlc_store.
Variable ks : keyset.
Variable feerate_per_kw : Z.
Variable dust_limit : amount_sat.
Variable side0 : side.
Variable to_self_delay : Z.
Variable direct_outputs : bool.

Lemma msat_to_sat_u64 m : is_u64 m -> 0 <= m / 1000 < u64_max.
Proof.
  unfold is_u64, u64_max. intros [H0 H1]. split.
  - apply Z.div_pos; lia.
  - apply Z.div_lt_upper_bound; lia.
Qed.

Lemma try_subtract_fee_u64 opener fee self other :
  0 <= satoshis fee ->
  is_u64 (millisatoshis self) -> is_u64 (millisatoshis other) ->
  is_u64 (millisatoshis (try_subtract_fee opener side0 fee self other).1)
  /\ is_u64 (millisatoshis (try_subtract_fee opener side0 fee self other).2).
Proof.
  unfold is_u64, try_subtract_fee, amount_msat_sub_sat. intros Hf Hs Ho.
  destruct (decide (opener = side0)); simpl.
  - destruct (Z.leb_spec (satoshis fee * 1000) (millisatoshis self)); simpl;
      unfold u64_max in *; lia.
  - destruct (Z.leb_spec (satoshis fee * 1000) (millisatoshis other)); simpl;
      unfold u64_max in *; lia.
Qed.

Lemma row_ok_u64 self_pay other_pay hs row :
  is_u64 (millisatoshis self_pay) -> is_u64 (millisatoshis other_pay) ->
  Forall (fun p => is_u64 (millisatoshis (amount (mem p)))) hs ->
  row_ok mem ks feerate_per_kw dust_limit side0 to_self_delay direct_outputs
         self_pay other_pay hs row ->
  0 <= satoshi (row_out row) < u64_max.
Proof.
  intros Hs Ho Hhs [(p & Hp & _ & _ & Hout)|[(_ & _ & Hout)|(_ & _ & Hout)]];
    rewrite Hout.
  - rewrite Forall_forall in Hhs. specialize (Hhs p Hp).
    unfold htlc_out. destruct (is_offered mem side0 p); by apply msat_to_sat_u64.
  - by apply msat_to_sat_u64.
  - by apply msat_to_sat_u64.
Qed.

(** The structural check only looks at the outputs. *)
Lemma bitcoin_tx_check_rows rows cap txid txout funding N :
  bitcoin_tx_check (assemble rows cap txid txout funding N)
  = negb (Nat.eqb (length rows) 0)
    && forallb (fun o => (0 <=? satoshi o) && (satoshi o <? u64_max)) (row_out <$> rows).
Proof.
  unfold bitcoin_tx_check, assemble, num_outputs; simpl. by rewrite length_fmap.
Qed.

Lemma bitcoin_tx_check_ok rows cap txid txout funding N :
  (0 < length rows)%nat ->
  Forall (fun row => 0 <= satoshi (row_out row) < u64_max) rows ->
  bitcoin_tx_check (assemble rows cap txid txout funding N) = true.
Proof.
  intros Hlen Hall. rewrite bitcoin_tx_check_rows.
  apply andb_true_intro. split.
  - destruct rows; simpl in *; [lia|done].
  - apply forallb_forall. intros o Hin.
    apply list_elem_of_In, list_elem_of_fmap in Hin as (row & -> & Hrow).
    rewrite Forall_forall in Hall. specialize (Hall row Hrow).
    apply andb_true_intro. split; [apply Z.leb_le|apply Z.ltb_lt]; lia.
Qed.
End CheckFacts.

(** * The claims *)

Section Claims.
Context `{Collaborators}.
Variable mem : htlc_store.
Variable ks : keyset.
Variable feerate_per_kw : Z.
Variable dust_limit : amount_sat.
Variable side0 : side.
Variable to_self_delay : Z.
Variable direct_outputs : bool.
Variable stale : stale_memory.
Variable funding_txid : bytes.
Variable funding_txout : Z.
Variable funding : amount_sat.
Variable opener : side.
Variable self_pay other_pay : amount_msat.
Variable htlcs : list htlc_ptr.
Variable obscured_commitment_number : Z.

Local Abbreviation untrimmed :=
  (commit_tx_num_untrimmed mem htlcs feerate_per_kw dust_limit side0).
Local Abbreviation base_fee := (commit_tx_base_fee feerate_per_kw untrimmed).
Local Abbreviation pays :=
  (try_subtract_fee opener side0 base_fee self_pay other_pay).
Local Abbreviation emitted :=
  (emitted_rows mem ks feerate_per_kw dust_limit side0 to_self_delay direct_outputs
                stale pays.1 pays.2 htlcs).
Local Abbreviation rowOk :=
  (row_ok mem ks feerate_per_kw dust_limit side0 to_self_delay direct_outputs
          pays.1 pays.2 htlcs).
Local Abbreviation finalRows :=
  (commit_tx_final_rows mem ks feerate_per_kw dust_limit side0 to_self_delay
     direct_outputs stale funding_txid funding_txout funding opener self_pay
     other_pay htlcs obscured_commitment_number).

(** C1, as the code has it.  The sum of the output amounts is the sum of
    the untrimmed HTLC amounts, each truncated to satoshis, plus the
    funder's balance less the fee (not below zero) and the other party's
    whole balance, each counted when it reaches the dust limit and
    truncated to satoshis: a shortfall of the funder never touches the other
    party's output.  When the funder covers the fee and the balances and
    HTLC amounts together do not exceed the funding, outputs plus fee do not
    exceed the funding; they equal it when balances and HTLCs add up to the
    funding, no HTLC is trimmed, both balance outputs are emitted and every
    amount is a whole number of satoshis. *)
Theorem commit_tx_fee_accounting r :
  0 <= millisatoshis self_pay ->
  0 <= millisatoshis other_pay ->
  Forall (fun p => 0 <= millisatoshis (amount (mem p))) htlcs ->
  commit_tx mem stale funding_txid funding_txout funding opener to_self_delay ks
            feerate_per_kw dust_limit self_pay other_pay htlcs direct_outputs
            obscured_commitment_number side0 = Some r ->
  let fee := satoshis base_fee in
  let funder :=
    millisatoshis (if decide (opener = side0) then self_pay else other_pay) in
  let fundee :=
    millisatoshis (if decide (opener = side0) then other_pay else self_pay) in
  let paid (m : Z) := if satoshis dust_limit * 1000 <=? m then m / 1000 else 0 in
  let total :=
    millisatoshis self_pay + millisatoshis other_pay + sum_htlc_msat mem htlcs in
  sum_output_amounts (res_tx r)
  = sum_untrimmed_sat mem feerate_per_kw dust_limit side0 htlcs
    + paid (Z.max 0 (funder - fee * 1000)) + paid fundee
  /\ (fee * 1000 <= funder -> total <= satoshis funding * 1000 ->
      sum_output_amounts (res_tx r) + fee <= satoshis funding)
  /\ (fee * 1000 <= funder -> total = satoshis funding * 1000 ->
      Forall (fun p => trim (mem p) feerate_per_kw dust_limit side0 = false
                       /\ millisatoshis (amount (mem p)) mod 1000 = 0) htlcs ->
      millisatoshis self_pay mod 1000 = 0 ->
      millisatoshis other_pay mod 1000 = 0 ->
      satoshis dust_limit * 1000 <= funder - fee * 1000 ->
      satoshis dust_limit * 1000 <= fundee ->
      sum_output_amounts (res_tx r) + fee = satoshis funding).
Proof.
  intros Hself Hother Hhtlcs Hcall. cbv zeta.
  destruct (finalRows r Hcall)
    as (rows & Hperm & _ & _ & Hout & _).
  rewrite (sum_output_amounts_rows _ _ Hout), (sum_rows_perm _ _ Hperm).
  rewrite sum_emitted_rows.
  pose proof (sum_untrimmed_le mem feerate_per_kw dust_limit side0 htlcs Hhtlcs) as Hle.
  set (U := sum_untrimmed_sat mem feerate_per_kw dust_limit side0 htlcs) in *.
  set (fee := satoshis base_fee).
  unfold try_subtract_fee, amount_msat_sub_sat, amount_msat_greater_eq_sat.
  fold fee.
  assert (Hdiv : forall m, 0 <= m ->
            0 <= (if satoshis dust_limit * 1000 <=? m then m / 1000 else 0) * 1000 <= m).
  { intros m Hm. pose proof (Z.mul_div_le m 1000 ltac:(lia)).
    pose proof (Z.div_pos m 1000 Hm ltac:(lia)).
    destruct (satoshis dust_limit * 1000 <=? m); lia. }
  assert (Hexact : forall m, m mod 1000 = 0 -> satoshis dust_limit * 1000 <= m ->
            (if satoshis dust_limit * 1000 <=? m then m / 1000 else 0) * 1000 = m).
  { intros m Hm Hd. pose proof (Z.div_mod m 1000 ltac:(lia)).
    destruct (Z.leb_spec (satoshis dust_limit * 1000) m); lia. }
  assert (Hsub : forall m, m mod 1000 = 0 -> (m - fee * 1000) mod 1000 = 0).
  { intros m Hm. rewrite Zminus_mod, Z_mod_mult, Hm. done. }
  destruct (decide (opener = side0)) as [E|E]; cbn [fst snd].
  - destruct (Z.leb_spec (fee * 1000) (millisatoshis self_pay)) as [Hf|Hf];
      cbn [default from_option id millisatoshis].
    + rewrite Z.max_r by lia. split; [done|]. split.
      * intros _ Htot.
        pose proof (Hdiv (millisatoshis self_pay - fee * 1000) ltac:(lia)).
        pose proof (Hdiv (millisatoshis other_pay) Hother). lia.
      * intros _ Htot Hall Hs Ho Hd1 Hd2.
        pose proof (sum_untrimmed_exact mem feerate_per_kw dust_limit side0 htlcs Hall)
          as HU.
        pose proof (Hexact _ (Hsub _ Hs) Hd1).
        pose proof (Hexact _ Ho Hd2). fold U in HU. lia.
    + rewrite Z.max_l by lia. split; [done|]. split; intros; lia.
  - destruct (Z.leb_spec (fee * 1000) (millisatoshis other_pay)) as [Hf|Hf];
      cbn [default from_option id millisatoshis].
    + rewrite Z.max_r by lia. split; [lia|]. split.
      * intros _ Htot.
        pose proof (Hdiv (millisatoshis other_pay - fee * 1000) ltac:(lia)).
        pose proof (Hdiv (millisatoshis self_pay) Hself). lia.
      * intros _ Htot Hall Hs Ho Hd1 Hd2.
        pose proof (sum_untrimmed_exact mem feerate_per_kw dust_limit side0 htlcs Hall)
          as HU.
        pose proof (Hexact _ (Hsub _ Ho) Hd1).
        pose proof (Hexact _ Hs Hd2). fold U in HU. lia.
    + rewrite Z.max_l by lia. split; [lia|]. split; intros; lia.
Qed.

(** C2. Transaction assembly and round trip of the obscured commitment
    number: for 0 <= N < 2^48 the transaction a call returns has version 2,
    exactly one input, which references the funding outpoint, locktime
    0x20000000 | (N & 0xFFFFFF), input sequence
    0x80000000 | ((N >> 24) & 0xFFFFFF), and
    (locktime & 0xFFFFFF) | ((sequence & 0xFFFFFF) << 24) gives N back. *)
Theorem commit_tx_assembly r :
  0 <= obscured_commitment_number < 2 ^ 48 ->
  commit_tx mem stale funding_txid funding_txout funding opener to_self_delay ks
            feerate_per_kw dust_limit self_pay other_pay htlcs direct_outputs
            obscured_commitment_number side0 = Some r ->
  let w := wtx (res_tx r) in
  let seqno :=
    Z.lor 0x80000000 (Z.land (Z.shiftr obscured_commitment_number 24) 0xFFFFFF) in
  version w = 2
  /\ inputs w = [ {| txhash := funding_txid; index := funding_txout;
                     sequence := seqno |} ]
  /\ locktime w = Z.lor 0x20000000 (Z.land obscured_commitment_number 0xFFFFFF)
  /\ Z.lor (Z.land (locktime w) 0xFFFFFF) (Z.shiftl (Z.land seqno 0xFFFFFF) 24)
     = obscured_commitment_number.
Proof.
  intros HN Hcall. apply commit_tx_Some in Hcall as (_ & _ & _ & _ & ->).
  cbn [res_tx assemble wtx version inputs locktime].
  rewrite locktime_fits, sequence_fits.
  repeat split. by apply obscured_number_decode.
Qed.

(** C3. Trim-count consistency: the two output-emitting loops store exactly
    the pointers [commit_tx_num_untrimmed] counts, so after them both [n]
    and the number of outputs of the transaction equal the untrimmed count
    that sized the fee. *)
Theorem emit_htlcs_count :
  let st := emit_htlcs mem ks feerate_per_kw dust_limit side0 htlcs
              (initial_build stale untrimmed) in
  b_n st = untrimmed
  /\ num_outputs (wtx (b_tx st)) = untrimmed
  /\ take (b_n st) (b_htlcmap st)
     ≡ₚ List.filter (fun p => negb (trim (mem p) feerate_per_kw dust_limit side0)) htlcs
  /\ untrimmed
     = length (List.filter
                 (fun p => negb (trim (mem p) feerate_per_kw dust_limit side0)) htlcs).
Proof.
  cbv zeta. rewrite emit_htlcs_build_of.
  pose proof (num_untrimmed_rows mem ks feerate_per_kw dust_limit side0 htlcs) as E.
  pose proof (htlc_rows_map mem ks feerate_per_kw dust_limit side0 htlcs) as Hmap.
  unfold build_of, num_outputs; cbn [b_n b_tx b_htlcmap wtx outputs].
  rewrite length_fmap.
  rewrite take_app_length' by (by rewrite length_fmap).
  repeat split; try done.
  rewrite E. rewrite <- Hmap. by rewrite length_fmap.
Qed.

(** C4. Co-indexing of the HTLC map: the returned map is as long as the
    transaction has outputs, the outputs are in canonical order, outputs
    and map are the two columns of one reordering of the emitted rows (the
    map with its tags cleared when the direct outputs are asked for), and
    the entry at every index belongs to the output at that index: a non-null
    entry is an untrimmed HTLC of the list and the output is the one built
    for it; a null entry, when the list holds real pointers, sits at the
    [to_local] or the [to_remote] output. *)
Theorem commit_tx_htlcmap_coindexed r :
  commit_tx mem stale funding_txid funding_txout funding opener to_self_delay ks
            feerate_per_kw dust_limit self_pay other_pay htlcs direct_outputs
            obscured_commitment_number side0 = Some r ->
  length (res_htlcmap r) = num_outputs (wtx (res_tx r))
  /\ Sorted output_le (outputs (wtx (res_tx r)))
  /\ (exists rows,
        rows ≡ₚ emitted
        /\ outputs (wtx (res_tx r)) = row_out <$> rows
        /\ res_htlcmap r = (if direct_outputs then clear_tag <$> (row_map <$> rows)
                            else row_map <$> rows))
  /\ forall i e, res_htlcmap r !! i = Some e ->
       (e <> NULL ->
          e ∈ htlcs
          /\ trim (mem e) feerate_per_kw dust_limit side0 = false
          /\ outputs (wtx (res_tx r)) !! i = Some (htlc_out mem ks side0 e))
       /\ (e = NULL -> Forall genuine htlcs ->
          outputs (wtx (res_tx r)) !! i
            = Some (to_local_out ks to_self_delay pays.1)
          \/ outputs (wtx (res_tx r)) !! i = Some (to_remote_out ks pays.2)).
Proof.
  intros Hcall.
  destruct (finalRows r Hcall)
    as (rows & Hperm & Hsorted & Hok & Hout & Hwit & Hmap & Hslots).
  split.
  { rewrite Hmap. unfold num_outputs. rewrite Hout.
    destruct direct_outputs; by rewrite !length_fmap. }
  split.
  { rewrite Hout. eapply Sorted_fmap; [apply row_le_output_le|done]. }
  split.
  { by exists rows. }
  intros i e He.
  assert (exists row, rows !! i = Some row
            /\ e = if direct_outputs then clear_tag (row_map row) else row_map row)
    as (row & Hrow & Hrme).
  { rewrite Hmap in He. destruct direct_outputs;
      rewrite !list_lookup_fmap in He;
      destruct (rows !! i) as [row|]; simpl in He; try done;
      injection He as <-; eauto. }
  pose proof (Forall_lookup_1 _ _ _ _ Hok Hrow) as Hrok.
  rewrite Hout, list_lookup_fmap, Hrow. simpl.
  destruct Hrok as [(p & Hp & Hu & Hm & Ho)|[(Hge & Hm & Ho)|(Hge & Hm & Ho)]];
    rewrite Hm in Hrme.
  - split.
    + intros Hne. assert (e = p) as ->.
      { destruct direct_outputs; [|done].
        destruct (clear_tag_cases p) as [[E _]|[E _]]; congruence. }
      unfold untrimmed_htlc in Hu. apply negb_true_iff in Hu.
      by rewrite Ho.
    + intros -> Hgen. exfalso.
      rewrite Forall_forall in Hgen. destruct (Hgen p Hp) as (G0 & G1 & G2).
      destruct direct_outputs; [|done].
      destruct (clear_tag_cases p) as [[_ [?|[?|?]]]|[E _]]; congruence.
  - split.
    + intros Hne. exfalso. by destruct direct_outputs.
    + intros _ _. left. by rewrite Ho.
  - split.
    + intros Hne. exfalso. by destruct direct_outputs.
    + intros _ _. right. by rewrite Ho.
Qed.

(** C5. Dust omission of the balance outputs: the transaction has one
    output per untrimmed HTLC, one more exactly when [self_pay] after the
    fee reaches the dust limit, and one more exactly when [other_pay] does;
    an emitted balance output is in the transaction.  When the direct
    outputs are asked for (and the list holds real pointers), the slot of a
    balance output that was not emitted is null and the slot of an emitted
    one points at it; when they are not asked for, nothing is reported. *)
Theorem commit_tx_dust_omission r :
  commit_tx mem stale funding_txid funding_txout funding opener to_self_delay ks
            feerate_per_kw dust_limit self_pay other_pay htlcs direct_outputs
            obscured_commitment_number side0 = Some r ->
  let has_local := amount_msat_greater_eq_sat pays.1 dust_limit in
  let has_remote := amount_msat_greater_eq_sat pays.2 dust_limit in
  let outs := outputs (wtx (res_tx r)) in
  length outs = (untrimmed + Nat.b2n has_local + Nat.b2n has_remote)%nat
  /\ (has_local = true -> to_local_out ks to_self_delay pays.1 ∈ outs)
  /\ (has_remote = true -> to_remote_out ks pays.2 ∈ outs)
  /\ (direct_outputs = false -> res_direct_outputs r = None)
  /\ (direct_outputs = true -> Forall genuine htlcs ->
      exists to_us to_them,
        res_direct_outputs r = Some (to_us, to_them)
        /\ (has_local = false -> to_us = None)
        /\ (has_remote = false -> to_them = None)
        /\ (has_local = true ->
            exists i, to_us = Some i
              /\ outs !! i = Some (to_local_out ks to_self_delay pays.1))
        /\ (has_remote = true ->
            exists i, to_them = Some i /\ outs !! i = Some (to_remote_out ks pays.2))).
Proof.
  intros Hcall. cbv zeta.
  destruct (finalRows r Hcall)
    as (rows & Hperm & Hsorted & Hok & Hout & Hwit & Hmap & Hslots).
  assert (Hlocal : amount_msat_greater_eq_sat pays.1 dust_limit = true ->
            exists row, row ∈ rows
              /\ row_out row = to_local_out ks to_self_delay pays.1
              /\ row_map row = if direct_outputs then dummy_to_local else NULL).
  { intros Hge. eexists. split.
    - rewrite Hperm. unfold emitted_rows, local_rows. rewrite Hge.
      rewrite !elem_of_app. left; right. apply list_elem_of_singleton. reflexivity.
    - by split. }
  assert (Hremote : amount_msat_greater_eq_sat pays.2 dust_limit = true ->
            exists row, row ∈ rows
              /\ row_out row = to_remote_out ks pays.2
              /\ row_map row = if direct_outputs then dummy_to_remote else NULL).
  { intros Hge. eexists. split.
    - rewrite Hperm. unfold emitted_rows, remote_rows. rewrite Hge.
      rewrite !elem_of_app. right. apply list_elem_of_singleton. reflexivity.
    - by split. }
  split.
  { rewrite Hout, length_fmap, Hperm. apply emitted_rows_length. }
  split.
  { intros Hge. destruct (Hlocal Hge) as (row & Hin & Ho & _).
    rewrite Hout, <- Ho. by apply list_elem_of_fmap_2. }
  split.
  { intros Hge. destruct (Hremote Hge) as (row & Hin & Ho & _).
    rewrite Hout, <- Ho. by apply list_elem_of_fmap_2. }
  split.
  { intros Hd. rewrite Hd in Hslots. done. }
  intros Hd Hgen. rewrite Hd in *.
  destruct Hslots as (dl & dr & Hres & Hl & Hr).
  exists dl, dr. split; [done|].
  rewrite Forall_forall in Hgen.
  (* a row that carries a tag is the balance row of that tag *)
  assert (Htag_local : forall i, (row_map <$> rows) !! i = Some dummy_to_local ->
            amount_msat_greater_eq_sat pays.1 dust_limit = true
            /\ outputs (wtx (res_tx r)) !! i
               = Some (to_local_out ks to_self_delay pays.1)).
  { intros i Hi. rewrite list_lookup_fmap in Hi.
    destruct (rows !! i) as [row|] eqn:Hrow; simpl in Hi; [|done].
    injection Hi as Hm.
    pose proof (Forall_lookup_1 _ _ _ _ Hok Hrow) as Hrok.
    rewrite Hout, list_lookup_fmap, Hrow. simpl.
    destruct Hrok as [(p & Hp & _ & Hm' & _)|[(Hge & _ & Ho)|(_ & Hm' & _)]].
    - exfalso. destruct (Hgen p Hp) as (_ & G1 & _). congruence.
    - by rewrite Ho.
    - exfalso. rewrite Hm' in Hm. done. }
  assert (Htag_remote : forall i, (row_map <$> rows) !! i = Some dummy_to_remote ->
            amount_msat_greater_eq_sat pays.2 dust_limit = true
            /\ outputs (wtx (res_tx r)) !! i = Some (to_remote_out ks pays.2)).
  { intros i Hi. rewrite list_lookup_fmap in Hi.
    destruct (rows !! i) as [row|] eqn:Hrow; simpl in Hi; [|done].
    injection Hi as Hm.
    pose proof (Forall_lookup_1 _ _ _ _ Hok Hrow) as Hrok.
    rewrite Hout, list_lookup_fmap, Hrow. simpl.
    destruct Hrok as [(p & Hp & _ & Hm' & _)|[(_ & Hm' & _)|(Hge & _ & Ho)]].
    - exfalso. destruct (Hgen p Hp) as (_ & _ & G2). congruence.
    - exfalso. rewrite Hm' in Hm. done.
    - by rewrite Ho. }
  repeat split.
  - intros Hno. destruct dl as [i|]; [|done].
    destruct (Htag_local i Hl) as [Hge _]. congruence.
  - intros Hno. destruct dr as [i|]; [|done].
    destruct (Htag_remote i Hr) as [Hge _]. congruence.
  - intros Hge. destruct dl as [i|].
    + exists i. split; [done|]. by apply Htag_local.
    + exfalso. apply Hl. destruct (Hlocal Hge) as (row & Hin & _ & Hm).
      rewrite <- Hm. by apply list_elem_of_fmap_2.
  - intros Hge. destruct dr as [i|].
    + exists i. split; [done|]. by apply Htag_remote.
    + exfalso. apply Hr. destruct (Hremote Hge) as (row & Hin & _ & Hm).
      rewrite <- Hm. by apply list_elem_of_fmap_2.
Qed.

(** C6. Fee allocation: the fee comes off the balance of the opener as the
    rendering side sees it, the result stops at zero, the other balance is
    returned as it was, and the function has a result for every input. *)
Theorem try_subtract_fee_funder (fee : amount_sat) (self other : amount_msat) :
  let r := try_subtract_fee opener side0 fee self other in
  (opener = side0 ->
     millisatoshis r.1 = Z.max 0 (millisatoshis self - satoshis fee * 1000)
     /\ r.2 = other)
  /\ (opener <> side0 ->
     r.1 = self
     /\ millisatoshis r.2 = Z.max 0 (millisatoshis other - satoshis fee * 1000))
  /\ 0 <= millisatoshis (if decide (opener = side0) then r.1 else r.2).
Proof.
  cbv zeta. unfold try_subtract_fee, amount_msat_sub_sat.
  destruct (decide (opener = side0)) as [E|E]; simpl.
  - destruct (Z.leb_spec (satoshis fee * 1000) (millisatoshis self)); simpl;
      repeat split; try done; try lia.
  - destruct (Z.leb_spec (satoshis fee * 1000) (millisatoshis other)); simpl;
      repeat split; try done; try lia.
Qed.

(** C7, as the code has it.  For arguments of their C types, a call
    returns a transaction exactly when the two balances add up without
    overflow, their sum does not exceed the funding, and at least one output
    is emitted: an untrimmed HTLC, or a balance that still reaches the dust
    limit once the fee is off.  So when the sum of the balances neither
    overflows nor exceeds the funding and, after the fee, one of the two
    balances still holds a channel reserve that is at least the dust
    limit, none of the abort and assert branches fires. *)
Theorem commit_tx_succeeds_iff :
  is_u64 (millisatoshis self_pay) ->
  is_u64 (millisatoshis other_pay) ->
  Forall (fun p => is_u64 (millisatoshis (amount (mem p)))) htlcs ->
  0 <= satoshis base_fee ->
  let call :=
    commit_tx mem stale funding_txid funding_txout funding opener to_self_delay ks
              feerate_per_kw dust_limit self_pay other_pay htlcs direct_outputs
              obscured_commitment_number side0 in
  let no_overflow := millisatoshis self_pay + millisatoshis other_pay < u64_max in
  let funded :=
    millisatoshis self_pay + millisatoshis other_pay <= satoshis funding * 1000 in
  (is_Some call <->
   no_overflow /\ funded
   /\ ((0 < untrimmed)%nat
       \/ amount_msat_greater_eq_sat pays.1 dust_limit = true
       \/ amount_msat_greater_eq_sat pays.2 dust_limit = true))
  /\ (forall channel_reserve : Z,
        satoshis dust_limit <= channel_reserve ->
        channel_reserve * 1000 <= millisatoshis pays.1
        \/ channel_reserve * 1000 <= millisatoshis pays.2 ->
        no_overflow -> funded -> is_Some call).
Proof.
  intros Hs Ho Hhs Hfee. cbv zeta.
  pose proof (emitted_rows_length mem ks feerate_per_kw dust_limit side0
                to_self_delay direct_outputs stale pays.1 pays.2 htlcs) as Hlen.
  assert (Hiff :
    is_Some (commit_tx mem stale funding_txid funding_txout funding opener
               to_self_delay ks feerate_per_kw dust_limit self_pay other_pay
               htlcs direct_outputs obscured_commitment_number side0) <->
    millisatoshis self_pay + millisatoshis other_pay < u64_max
    /\ millisatoshis self_pay + millisatoshis other_pay <= satoshis funding * 1000
    /\ ((0 < untrimmed)%nat
        \/ amount_msat_greater_eq_sat pays.1 dust_limit = true
        \/ amount_msat_greater_eq_sat pays.2 dust_limit = true)).
  { split.
    - intros [r Hr]. apply commit_tx_Some in Hr as (H1 & H2 & H3 & _).
      split; [done|]. split; [done|].
      rewrite Hlen in H3.
      destruct (amount_msat_greater_eq_sat pays.1 dust_limit),
               (amount_msat_greater_eq_sat pays.2 dust_limit); auto.
      left. simpl in H3. lia.
    - intros (H1 & H2 & H3).
      assert (0 < length emitted)%nat as Hpos.
      { rewrite Hlen. destruct H3 as [?|[->| ->]]; [lia|simpl; lia|].
        destruct (amount_msat_greater_eq_sat pays.1 dust_limit); simpl; lia. }
      eexists. apply commit_tx_Some.
      split; [done|]. split; [done|]. split; [done|]. split; [|reflexivity].
      apply bitcoin_tx_check_ok; [by rewrite sort_rows_length|].
      rewrite sort_rows_perm.
      destruct (try_subtract_fee_u64 side0 opener base_fee self_pay other_pay)
        as [Hp1 Hp2]; try done.
      eapply Forall_impl; [apply emitted_rows_ok|]. intros row.
      by apply row_ok_u64. }
  split; [exact Hiff|].
  intros reserve Hres Hheld H1 H2. apply Hiff.
  split; [done|]. split; [done|]. right.
  unfold amount_msat_greater_eq_sat.
  destruct Hheld; [left|right]; apply Z.leb_le; lia.
Qed.

(** C8. Input-order independence: a call on any reordering of the HTLC
    list, whatever the scratch arrays held before, succeeds when the
    original does and returns the same transaction: same version, locktime,
    input and outputs in the same order; the witness scripts kept beside
    the outputs are the same too when script derivation is injective. *)
Theorem commit_tx_order_independent stale' htlcs' r :
  htlcs ≡ₚ htlcs' ->
  commit_tx mem stale funding_txid funding_txout funding opener to_self_delay ks
            feerate_per_kw dust_limit self_pay other_pay htlcs direct_outputs
            obscured_commitment_number side0 = Some r ->
  exists r',
    commit_tx mem stale' funding_txid funding_txout funding opener to_self_delay ks
            feerate_per_kw dust_limit self_pay other_pay htlcs' direct_outputs
            obscured_commitment_number side0 = Some r'
    /\ wtx (res_tx r') = wtx (res_tx r)
    /\ input_amounts (res_tx r') = input_amounts (res_tx r)
    /\ (scripts_injective -> res_tx r' = res_tx r).
Proof.
  intros Hp Hcall.
  pose proof (num_untrimmed_perm mem ks feerate_per_kw dust_limit side0 _ _ Hp) as Hn.
  apply commit_tx_Some in Hcall as (H1 & H2 & H3 & H4 & ->).
  pose proof (emitted_outputs_perm mem ks feerate_per_kw dust_limit side0
                to_self_delay direct_outputs stale stale' pays.1 pays.2 _ _ Hp) as Hperm.
  pose proof (sorted_outputs_unique _ _ Hperm) as Hout.
  eexists. split.
  - apply commit_tx_Some. rewrite <- Hn.
    split; [done|]. split; [done|]. split; [|split; [|reflexivity]].
    + apply Permutation_length in Hperm. rewrite !length_fmap in Hperm. lia.
    + rewrite bitcoin_tx_check_rows in *.
      rewrite <- Hout, !sort_rows_length.
      apply Permutation_length in Hperm. rewrite !length_fmap in Hperm.
      rewrite sort_rows_length in H4. by rewrite <- Hperm.
  - cbn [res_tx]. unfold assemble; cbn [wtx input_amounts].
    rewrite <- Hout. split; [done|]. split; [done|].
    intros Hinj. f_equal. symmetry. apply wits_unique; try done.
    + rewrite sort_rows_perm. apply emitted_rows_wit_ok.
    + rewrite sort_rows_perm. apply emitted_rows_wit_ok.
Qed.

(** C9. Output-count bound: a returned transaction has at most as many
    outputs as were allocated, which is the untrimmed count plus two and so
    at most the number of HTLCs plus two. *)
Theorem commit_tx_output_bound r :
  commit_tx mem stale funding_txid funding_txout funding opener to_self_delay ks
            feerate_per_kw dust_limit self_pay other_pay htlcs direct_outputs
            obscured_commitment_number side0 = Some r ->
  outputs_allocation_len (wtx (res_tx r)) = (untrimmed + 2)%nat
  /\ (num_outputs (wtx (res_tx r)) <= outputs_allocation_len (wtx (res_tx r)))%nat
  /\ (num_outputs (wtx (res_tx r)) <= length htlcs + 2)%nat.
Proof.
  intros Hcall. apply commit_tx_Some in Hcall as (_ & _ & _ & _ & ->).
  unfold num_outputs. cbn [res_tx assemble wtx outputs outputs_allocation_len].
  rewrite length_fmap, sort_rows_length, emitted_rows_length.
  pose proof (num_untrimmed_le mem ks feerate_per_kw dust_limit side0 htlcs).
  destruct (amount_msat_greater_eq_sat pays.1 dust_limit),
           (amount_msat_greater_eq_sat pays.2 dust_limit); simpl; lia.
Qed.

(** C10. Sentinel containment: every entry of the returned map is null or
    one of the pointers of the HTLC list.  When the direct outputs are
    asked for, no entry is one of the two tags; when they are not, the
    entries of the balance outputs are null from the moment steps 5 and 6
    write them; so for a list of real pointers no tag is ever returned. *)
Theorem commit_tx_no_sentinel r :
  commit_tx mem stale funding_txid funding_txout funding opener to_self_delay ks
            feerate_per_kw dust_limit self_pay other_pay htlcs direct_outputs
            obscured_commitment_number side0 = Some r ->
  Forall (fun e => e = NULL \/ e ∈ htlcs) (res_htlcmap r)
  /\ (direct_outputs = true ->
      Forall (fun e => e <> dummy_to_local /\ e <> dummy_to_remote) (res_htlcmap r))
  /\ (direct_outputs = false ->
      forall st,
        emit_outputs mem ks feerate_per_kw dust_limit side0 to_self_delay
          direct_outputs stale untrimmed pays.1 pays.2 htlcs = Some st ->
        Forall (fun e => e = NULL \/ e ∈ htlcs) (take (b_n st) (b_htlcmap st)))
  /\ (Forall genuine htlcs ->
      Forall (fun e => e <> dummy_to_local /\ e <> dummy_to_remote) (res_htlcmap r)).
Proof.
  intros Hcall.
  destruct (finalRows r Hcall)
    as (rows & Hperm & Hsorted & Hok & Hout & Hwit & Hmap & Hslots).
  assert (Hin : Forall (fun e => e = NULL \/ e ∈ htlcs) (res_htlcmap r)).
  { rewrite Hmap. destruct direct_outputs; rewrite ?Forall_fmap;
      (eapply Forall_impl; [exact Hok|]); intros row; simpl;
      intros [(p & Hp & _ & Hm & _)|[(_ & Hm & _)|(_ & Hm & _)]]; rewrite Hm;
      try (by left).
    - destruct (clear_tag_cases p) as [[-> _]|[-> _]]; [by left|by right].
    - by right. }
  assert (Hon : direct_outputs = true ->
            Forall (fun e => e <> dummy_to_local /\ e <> dummy_to_remote)
                   (res_htlcmap r)).
  { intros Hd. rewrite Hmap, Hd. rewrite Forall_fmap.
    apply Forall_forall. intros p _. simpl.
    destruct (clear_tag_cases p) as [[-> _]|[-> (_ & ? & ?)]]; done. }
  split; [done|]. split; [done|]. split.
  - intros Hd st Hst. rewrite emit_outputs_build_of in Hst.
    injection Hst as <-. cbn [b_n b_htlcmap build_of].
    rewrite take_app_length' by (by rewrite length_fmap).
    rewrite Forall_fmap.
    eapply Forall_impl; [apply emitted_rows_ok|]. intros row; simpl.
    rewrite Hd.
    intros [(p & Hp & _ & Hm & _)|[(_ & Hm & _)|(_ & Hm & _)]]; rewrite Hm;
      [by right|by left|by left].
  - intros Hgen. destruct direct_outputs eqn:Hd; [by apply Hon|].
    eapply Forall_impl; [exact Hin|]. intros e [->|He]; [done|].
    rewrite Forall_forall in Hgen. destruct (Hgen e He) as (_ & ? & ?). done.
Qed.

End Claims.

(** * The claims on a concrete channel *)

(** C1 as stated fails.  No HTLC, a funding of 10000 satoshis split into
    6000500 and 3999500 millisatoshis, a fee of 184 satoshis that either
    balance exceeds: the outputs carry 5816 and 3999 satoshis, and with the
    fee that is 9999, one satoshi short of the funding. *)
Lemma fee_conservation_counterexample :
  satoshis (Fixture.base_fee 253 0) * 1000 < 6000500
  /\ satoshis (Fixture.base_fee 253 0) * 1000 < 3999500
  /\ 6000500 + 3999500 = 10000 * 1000
  /\ (fun r => sum_output_amounts (res_tx r) + satoshis (Fixture.base_fee 253 0))
       <$> Fixture.run false (AMOUNT_SAT 10000) (AMOUNT_MSAT 6000500)
                       (AMOUNT_MSAT 3999500) []
     = Some 9999
  /\ 9999 <> 10000.
Proof. by vm_compute. Qed.

(** A channel where nothing is lost: two untrimmed HTLCs of whole
    satoshis, balances of whole satoshis, everything adding up to the
    funding. *)
Lemma commit_tx_fee_accounting_witness :
  exists r,
    0 <= 7600000 /\ 0 <= 4400000
    /\ Forall (fun p => 0 <= millisatoshis (amount (Fixture.store p))) [4096; 4224]
    /\ Fixture.run true Fixture.funding (AMOUNT_MSAT 7600000) Fixture.other_pay
                   [4096; 4224] = Some r
    /\ sum_output_amounts (res_tx r) + satoshis (Fixture.base_fee 253 2)
       = satoshis Fixture.funding.
Proof.
  eexists. split; [by vm_compute|]. split; [by vm_compute|].
  assert (Hh : Forall (fun p => 0 <= millisatoshis (amount (Fixture.store p)))
                      [4096; 4224]) by (repeat constructor; by vm_compute).
  split; [exact Hh|]. split; [vm_compute; reflexivity|].
  refine (proj2 (proj2 (@commit_tx_fee_accounting Fixture.collaborators
    Fixture.store Fixture.keys 253 Fixture.dust LOCAL 144 true Fixture.stale
    Fixture.txid 0 Fixture.funding LOCAL (AMOUNT_MSAT 7600000) Fixture.other_pay
    [4096; 4224] Fixture.number _ _ _ Hh _)) _ _ _ _ _ _ _);
    try (by vm_compute).
  repeat constructor; by vm_compute.
Defined.

Lemma commit_tx_assembly_witness :
  exists r,
    0 <= Fixture.number < 2 ^ 48
    /\ Fixture.run true Fixture.funding Fixture.self_pay Fixture.other_pay
               Fixture.htlcs = Some r
    /\ version (wtx (res_tx r)) = 2
    /\ inputs (wtx (res_tx r))
       = [ {| txhash := Fixture.txid; index := 0; sequence := 0x80123456 |} ]
    /\ locktime (wtx (res_tx r)) = 0x20789abc
    /\ Z.lor (Z.land (locktime (wtx (res_tx r))) 0xFFFFFF)
             (Z.shiftl (Z.land 0x80123456 0xFFFFFF) 24) = Fixture.number.
Proof.
  eexists. split; [by vm_compute|]. split; [vm_compute; reflexivity|].
  apply (@commit_tx_assembly Fixture.collaborators
    Fixture.store Fixture.keys 253 Fixture.dust LOCAL 144 true Fixture.stale
    Fixture.txid 0 Fixture.funding LOCAL Fixture.self_pay Fixture.other_pay
    Fixture.htlcs Fixture.number); [by vm_compute|vm_compute; reflexivity].
Defined.

Lemma commit_tx_htlcmap_coindexed_witness :
  exists r,
    Fixture.run true Fixture.funding Fixture.self_pay Fixture.other_pay
               Fixture.htlcs = Some r
    /\ length (res_htlcmap r) = num_outputs (wtx (res_tx r))
    /\ res_htlcmap r !! 2%nat = Some 4096
    /\ outputs (wtx (res_tx r)) !! 2%nat
       = Some (htlc_out Fixture.store Fixture.keys LOCAL 4096).
Proof.
  eexists. split; [vm_compute; reflexivity|].
  destruct (@commit_tx_htlcmap_coindexed Fixture.collaborators
    Fixture.store Fixture.keys 253 Fixture.dust LOCAL 144 true Fixture.stale
    Fixture.txid 0 Fixture.funding LOCAL Fixture.self_pay Fixture.other_pay
    Fixture.htlcs Fixture.number _ eq_refl) as (Hlen & _ & _ & Hco).
  split; [exact Hlen|]. split; [reflexivity|].
  apply (Hco 2%nat 4096 eq_refl). by vm_compute.
Defined.

(** The remote balance is below the dust limit: no [to_remote] output, an
    empty remote slot, and the local slot at the [to_local] output. *)
Lemma commit_tx_dust_omission_witness :
  exists r,
    Fixture.run true Fixture.funding Fixture.self_pay (AMOUNT_MSAT 400000)
                Fixture.htlcs = Some r
    /\ Forall genuine Fixture.htlcs
    /\ length (outputs (wtx (res_tx r))) = 3%nat
    /\ exists to_us, res_direct_outputs r = Some (to_us, None)
         /\ exists i, to_us = Some i
              /\ outputs (wtx (res_tx r)) !! i
                 = Some (to_local_out Fixture.keys 144 (AMOUNT_MSAT 6729000)).
Proof.
  eexists. split; [vm_compute; reflexivity|].
  assert (Hg : Forall genuine Fixture.htlcs) by (repeat constructor; by vm_compute).
  split; [exact Hg|].
  destruct (@commit_tx_dust_omission Fixture.collaborators
    Fixture.store Fixture.keys 253 Fixture.dust LOCAL 144 true Fixture.stale
    Fixture.txid 0 Fixture.funding LOCAL Fixture.self_pay (AMOUNT_MSAT 400000)
    Fixture.htlcs Fixture.number _ eq_refl) as (Hlen & _ & _ & _ & Hslots).
  split; [exact Hlen|].
  destruct (Hslots eq_refl Hg) as (to_us & to_them & Hres & _ & Hnone & Hsome & _).
  exists to_us. rewrite (Hnone eq_refl) in Hres. split; [exact Hres|].
  exact (Hsome eq_refl).
Defined.

(** C7 as stated fails.  The opener holds exactly a channel reserve equal
    to the dust limit, the other side nothing, and there is no HTLC: the
    sum of the balances neither overflows nor exceeds the funding, the
    reserve is not below the dust limit, yet after the fee no balance
    reaches the dust limit, no output is emitted and the call aborts. *)
Lemma reserve_precondition_counterexample :
  546000 + 0 < u64_max
  /\ 546000 + 0 <= satoshis (AMOUNT_SAT 546) * 1000
  /\ satoshis Fixture.dust <= 546
  /\ 546 * 1000 <= 546000
  /\ Fixture.run false (AMOUNT_SAT 546) (AMOUNT_MSAT 546000) (AMOUNT_MSAT 0) [] = None.
Proof. by vm_compute. Qed.

Lemma commit_tx_succeeds_iff_witness :
  is_u64 (millisatoshis Fixture.self_pay)
  /\ is_u64 (millisatoshis Fixture.other_pay)
  /\ Forall (fun p => is_u64 (millisatoshis (amount (Fixture.store p)))) Fixture.htlcs
  /\ 0 <= satoshis (Fixture.base_fee 253 2)
  /\ satoshis Fixture.dust <= 1000
  /\ 1000 * 1000 <= 6729000
  /\ is_Some (Fixture.run false Fixture.funding Fixture.self_pay Fixture.other_pay
                          Fixture.htlcs).
Proof.
  assert (Hs : is_u64 (millisatoshis Fixture.self_pay)) by (by vm_compute).
  assert (Ho : is_u64 (millisatoshis Fixture.other_pay)) by (by vm_compute).
  assert (Hh : Forall (fun p => is_u64 (millisatoshis (amount (Fixture.store p))))
                      Fixture.htlcs) by (repeat constructor; by vm_compute).
  assert (Hf : 0 <= satoshis (Fixture.base_fee 253 2)) by (by vm_compute).
  assert (Hr : satoshis Fixture.dust <= 1000) by (by vm_compute).
  assert (Hheld : 1000 * 1000 <= 6729000) by (by vm_compute).
  split; [exact Hs|]. split; [exact Ho|]. split; [exact Hh|]. split; [exact Hf|].
  split; [exact Hr|]. split; [exact Hheld|].
  apply (proj2 (@commit_tx_succeeds_iff Fixture.collaborators
    Fixture.store Fixture.keys 253 Fixture.dust LOCAL 144 false Fixture.stale
    Fixture.txid 0 Fixture.funding LOCAL Fixture.self_pay Fixture.other_pay
    Fixture.htlcs Fixture.number Hs Ho Hh Hf) 1000 Hr (or_introl Hheld));
    by vm_compute.
Defined.

(** The HTLC list reversed, other junk in the scratch arrays: the same
    transaction. *)
Lemma commit_tx_order_independent_witness :
  exists r r',
    Fixture.htlcs ≡ₚ rev Fixture.htlcs
    /\ Fixture.run true Fixture.funding Fixture.self_pay Fixture.other_pay
               Fixture.htlcs = Some r
    /\ commit_tx Fixture.store Fixture.stale' Fixture.txid 0 Fixture.funding
                 LOCAL 144 Fixture.keys 253 Fixture.dust Fixture.self_pay
                 Fixture.other_pay (rev Fixture.htlcs) true Fixture.number LOCAL
       = Some r'
    /\ wtx (res_tx r') = wtx (res_tx r).
Proof.
  destruct (@commit_tx_order_independent Fixture.collaborators
    Fixture.store Fixture.keys 253 Fixture.dust LOCAL 144 true Fixture.stale
    Fixture.txid 0 Fixture.funding LOCAL Fixture.self_pay Fixture.other_pay
    Fixture.htlcs Fixture.number Fixture.stale' (rev Fixture.htlcs) _
    (Permutation_rev _) eq_refl) as (r' & Hr' & Hw & _).
  eexists _, r'. split; [apply Permutation_rev|]. split; [reflexivity|].
  split; [exact Hr'|exact Hw].
Defined.

Lemma commit_tx_output_bound_witness :
  exists r,
    Fixture.run true Fixture.funding Fixture.self_pay Fixture.other_pay
               Fixture.htlcs = Some r
    /\ outputs_allocation_len (wtx (res_tx r)) = 4%nat
    /\ (num_outputs (wtx (res_tx r)) <= outputs_allocation_len (wtx (res_tx r)))%nat
    /\ (num_outputs (wtx (res_tx r)) <= 5)%nat.
Proof.
  eexists. split; [vm_compute; reflexivity|].
  apply (@commit_tx_output_bound Fixture.collaborators
    Fixture.store Fixture.keys 253 Fixture.dust LOCAL 144 true Fixture.stale
    Fixture.txid 0 Fixture.funding LOCAL Fixture.self_pay Fixture.other_pay
    Fixture.htlcs Fixture.number).
  vm_compute; reflexivity.
Defined.

Lemma commit_tx_no_sentinel_witness :
  exists r,
    Fixture.run true Fixture.funding Fixture.self_pay Fixture.other_pay
               Fixture.htlcs = Some r
    /\ Forall (fun e => e = NULL \/ e ∈ Fixture.htlcs) (res_htlcmap r)
    /\ Forall (fun e => e <> dummy_to_local /\ e <> dummy_to_remote) (res_htlcmap r).
Proof.
  eexists. split; [vm_compute; reflexivity|].
  destruct (@commit_tx_no_sentinel Fixture.collaborators
    Fixture.store Fixture.keys 253 Fixture.dust LOCAL 144 true Fixture.stale
    Fixture.txid 0 Fixture.funding LOCAL Fixture.self_pay Fixture.other_pay
    Fixture.htlcs Fixture.number _ eq_refl) as (Hin & Hon & _).
  split; [exact Hin|exact (Hon eq_refl)].
Defined.

(** ** Two runs *)

(** The call on the three HTLCs: the second is trimmed, the outputs come
    out in ascending order of amount, the map follows them and the two
    slots point at the balance outputs. *)
Example fixture_run :
  Fixture.run true Fixture.funding Fixture.self_pay Fixture.other_pay Fixture.htlcs
  = Some
      {| res_tx :=
           {| wtx :=
                {| version := 2;
                   locktime := 0x20789abc;
                   inputs := [ {| txhash := Fixture.txid; index := 0;
                                  sequence := 0x80123456 |} ];
                   outputs :=
                     [ {| satoshi := 3000; script := [0; 32; 0x77; 502; 9; 9; 3] |};
                       {| satoshi := 4400; script := [0; 20; 6] |};
                       {| satoshi := 5000; script := [0; 32; 0x76; 7; 7; 2] |};
                       {| satoshi := 6729; script := [0; 32; 0x63; 144; 4] |} ];
                   outputs_allocation_len := 4 |};
              input_amounts := [Fixture.funding];
              output_witscripts :=
                [ Some [0x77; 502; 9; 9; 3]; None; Some [0x76; 7; 7; 2];
                  Some [0x63; 144; 4] ] |};
         res_htlcmap := [4224; NULL; 4096; NULL];
         res_direct_outputs := Some (Some 3%nat, Some 1%nat) |}.
Proof. reflexivity. Qed.

(** A local balance at the dust limit after the fee, a remote balance below
    it and no HTLC: exactly one output, and the call does not abort. *)
Example minimum_viable_output :
  (fun r => outputs (wtx (res_tx r)))
    <$> Fixture.run false (AMOUNT_SAT 1000) (AMOUNT_MSAT 730000) (AMOUNT_MSAT 270000) []
  = Some [ {| satoshi := 546; script := [0; 32; 0x63; 144; 4] |} ].
Proof. reflexivity. Qed.

(** A fee larger than the opener's balance: the balance stops at zero and
    the other side keeps all of its own. *)
Example try_subtract_fee_shortfall :
  try_subtract_fee LOCAL LOCAL (AMOUNT_SAT 184) (AMOUNT_MSAT 100000) (AMOUNT_MSAT 5000)
  = (AMOUNT_MSAT 0, AMOUNT_MSAT 5000)
  /\ try_subtract_fee REMOTE LOCAL (AMOUNT_SAT 184) (AMOUNT_MSAT 5000) (AMOUNT_MSAT 100000)
     = (AMOUNT_MSAT 5000, AMOUNT_MSAT 0).
Proof. split; reflexivity. Qed.

(** Two of the three HTLCs survive trimming. *)
Example fixture_num_untrimmed :
  commit_tx_num_untrimmed Fixture.store Fixture.htlcs 253 Fixture.dust LOCAL = 2%nat.
Proof. reflexivity. Qed.

(** * Further properties of the builder *)

(** ** Lists *)

Lemma List_filter_perm {A} (f : A -> bool) l l' :
  l ≡ₚ l' -> List.filter f l ≡ₚ List.filter f l'.
Proof.
  induction 1 as [|x l l' _ IH|x y l|l l' l'' _ IH1 _ IH2]; simpl.
  - done.
  - destruct (f x); by rewrite IH.
  - destruct (f x), (f y); try done. apply Permutation_swap.
  - by rewrite IH1.
Qed.

Lemma List_filter_length_le {A} (f : A -> bool) l :
  (length (List.filter f l) <= length l)%nat.
Proof. induction l as [|x l IH]; simpl; [lia|]. destruct (f x); simpl; lia. Qed.

Lemma StronglySorted_lookup {A} (R : relation A) l : forall i j x y,
  StronglySorted R l -> (i < j)%nat ->
  l !! i = Some x -> l !! j = Some y -> R x y.
Proof.
  induction l as [|a l IH]; intros i j x y Hs Hij Hi Hj; [done|].
  apply StronglySorted_inv in Hs as [Hs Ha].
  destruct j as [|j]; [lia|]. simpl in Hj.
  destruct i as [|i]; simpl in Hi.
  - injection Hi as <-. rewrite Forall_forall in Ha. apply Ha.
    by eapply list_elem_of_lookup_2.
  - eapply (IH i j); eauto. lia.
Qed.

Section EmissionFacts.
Context `{Collaborators}.
Variable mem : htlc_store.
Variable ks : keyset.
Variable feerate_per_kw : Z.
Variable dust_limit : amount_sat.
Variable side0 : side.

Local Abbreviation offeredRows := (offered_rows mem ks feerate_per_kw dust_limit side0).
Local Abbreviation receivedRows := (received_rows mem ks feerate_per_kw dust_limit side0).
Local Abbreviation isOffered := (is_offered mem side0).
Local Abbreviation isUntrimmed := (untrimmed_htlc mem feerate_per_kw dust_limit side0).

Lemma offered_rows_filter hs :
  offeredRows hs
  = offered_row mem ks <$> List.filter (fun p => isOffered p && isUntrimmed p) hs.
Proof.
  induction hs as [|p hs IH]; simpl; [done|].
  destruct (isOffered p && isUntrimmed p); csimpl; by rewrite IH.
Qed.

Lemma received_rows_filter hs :
  receivedRows hs
  = received_row mem ks
      <$> List.filter (fun p => negb (isOffered p) && isUntrimmed p) hs.
Proof.
  induction hs as [|p hs IH]; simpl; [done|].
  destruct (negb (isOffered p) && isUntrimmed p); csimpl; by rewrite IH.
Qed.

Lemma num_untrimmed_filter hs :
  commit_tx_num_untrimmed mem hs feerate_per_kw dust_limit side0
  = length (List.filter isUntrimmed hs).
Proof.
  rewrite (num_untrimmed_rows mem ks).
  rewrite <- (length_fmap row_map).
  by rewrite (htlc_rows_map mem ks feerate_per_kw dust_limit side0 hs).
Qed.
End EmissionFacts.

(** ** Counting, emission order and bounds *)

Section Emission.
Context `{Collaborators}.
Variable mem : htlc_store.
Variable ks : keyset.
Variable feerate_per_kw : Z.
Variable dust_limit : amount_sat.
Variable side0 : side.
Variable to_self_delay : Z.
Variable direct_outputs : bool.
Variable stale : stale_memory.
Variable htlcs : list htlc_ptr.

Local Abbreviation untrimmed :=
  (commit_tx_num_untrimmed mem htlcs feerate_per_kw dust_limit side0).
Local Abbreviation isOffered := (is_offered mem side0).
Local Abbreviation isUntrimmed := (untrimmed_htlc mem feerate_per_kw dust_limit side0).

(** X1. [commit_tx_num_untrimmed] counts list by list: the count of a
    concatenation is the sum of the counts, the count never exceeds the
    length of the list, trimmed and untrimmed HTLCs together are the whole
    list, and reordering the list does not change the count. *)
Theorem commit_tx_num_untrimmed_additive (hs1 hs2 : list htlc_ptr) :
  commit_tx_num_untrimmed mem (hs1 ++ hs2) feerate_per_kw dust_limit side0
  = (commit_tx_num_untrimmed mem hs1 feerate_per_kw dust_limit side0
     + commit_tx_num_untrimmed mem hs2 feerate_per_kw dust_limit side0)%nat
  /\ (commit_tx_num_untrimmed mem hs1 feerate_per_kw dust_limit side0
      <= length hs1)%nat
  /\ (commit_tx_num_untrimmed mem hs1 feerate_per_kw dust_limit side0
      + length (List.filter (fun p => trim (mem p) feerate_per_kw dust_limit side0) hs1)
      = length hs1)%nat
  /\ (hs1 ≡ₚ hs2 ->
      commit_tx_num_untrimmed mem hs1 feerate_per_kw dust_limit side0
      = commit_tx_num_untrimmed mem hs2 feerate_per_kw dust_limit side0).
Proof.
  rewrite !(num_untrimmed_filter mem ks).
  split; [by rewrite List.filter_app, length_app|].
  split; [apply List_filter_length_le|].
  split.
  - unfold untrimmed_htlc. induction hs1 as [|p hs IH]; simpl; [done|].
    destruct (trim (mem p) feerate_per_kw dust_limit side0); simpl; lia.
  - intros Hp. by rewrite (List_filter_perm _ _ _ Hp).
Qed.

(** X2. Emission order.  Before the sort, steps 3 to 6 leave in the
    transaction first the outputs of the untrimmed offered HTLCs in list
    order, then those of the untrimmed received HTLCs in list order, then
    [to_local] and then [to_remote], each only if its balance reaches the
    dust limit; the map holds the HTLC pointers, then the tags (or [NULL]),
    at the same indices, and [cltvs] the expiry of each HTLC output. *)
Theorem emit_outputs_order (self_pay other_pay : amount_msat) :
  let offered := List.filter (fun p => isOffered p && isUntrimmed p) htlcs in
  let received := List.filter (fun p => negb (isOffered p) && isUntrimmed p) htlcs in
  let local (A : Type) (x : A) :=
    if amount_msat_greater_eq_sat self_pay dust_limit then [x] else [] in
  let remote (A : Type) (x : A) :=
    if amount_msat_greater_eq_sat other_pay dust_limit then [x] else [] in
  exists st,
    emit_outputs mem ks feerate_per_kw dust_limit side0 to_self_delay
      direct_outputs stale untrimmed self_pay other_pay htlcs = Some st
    /\ outputs (wtx (b_tx st))
       = (offered_out mem ks <$> offered) ++ (received_out mem ks <$> received)
         ++ local _ (to_local_out ks to_self_delay self_pay)
         ++ remote _ (to_remote_out ks other_pay)
    /\ take (b_n st) (b_htlcmap st)
       = offered ++ received
         ++ local _ (if direct_outputs then dummy_to_local else NULL)
         ++ remote _ (if direct_outputs then dummy_to_remote else NULL)
    /\ take (length offered + length received) (b_cltvs st)
       = ((fun p => expiry (mem p)) <$> offered)
         ++ ((fun p => expiry (mem p)) <$> received).
Proof.
  cbv zeta. eexists. split; [apply emit_outputs_build_of|].
  unfold build_of; cbn [b_tx b_n b_htlcmap b_cltvs wtx outputs].
  unfold emitted_rows, htlc_rows, local_rows, remote_rows.
  rewrite offered_rows_filter, received_rows_filter.
  set (offered := List.filter (fun p => isOffered p && isUntrimmed p) htlcs).
  set (received := List.filter (fun p => negb (isOffered p) && isUntrimmed p) htlcs).
  rewrite take_app_length' by (by rewrite length_fmap).
  split; [|split].
  - rewrite !fmap_app, <- !list_fmap_compose, <- !app_assoc.
    by destruct (amount_msat_greater_eq_sat self_pay dust_limit),
                (amount_msat_greater_eq_sat other_pay dust_limit).
  - assert (Ho : forall l : list htlc_ptr,
              row_map <$> (offered_row mem ks <$> l) = l).
    { induction l as [|p l IH]; csimpl; [done|]. by rewrite IH. }
    assert (Hr : forall l : list htlc_ptr,
              row_map <$> (received_row mem ks <$> l) = l).
    { induction l as [|p l IH]; csimpl; [done|]. by rewrite IH. }
    rewrite !fmap_app, Ho, Hr, <- !app_assoc.
    by destruct (amount_msat_greater_eq_sat self_pay dust_limit),
                (amount_msat_greater_eq_sat other_pay dust_limit).
  - rewrite !fmap_app, <- !list_fmap_compose, <- !app_assoc.
    rewrite app_assoc.
    rewrite take_app_length' by (by rewrite length_app, !length_fmap).
    done.
Qed.

(** X3. Steps 3 to 6 stay inside the arrays they were given and never
    fail: [assert(pos == n)] holds, [n] is the number of outputs and at most
    the allocation of untrimmed + 2, the three arrays keep the length they
    were allocated with, and every entry from index [n] on is as allocation
    left it. *)
Theorem emit_outputs_in_bounds (self_pay other_pay : amount_msat) :
  exists st,
    emit_outputs mem ks feerate_per_kw dust_limit side0 to_self_delay
      direct_outputs stale untrimmed self_pay other_pay htlcs = Some st
    /\ outputs_allocation_len (wtx (b_tx st)) = (untrimmed + 2)%nat
    /\ b_n st = num_outputs (wtx (b_tx st))
    /\ (untrimmed <= b_n st <= untrimmed + 2)%nat
    /\ length (b_htlcmap st) = (untrimmed + 2)%nat
    /\ length (b_cltvs st) = (untrimmed + 2)%nat
    /\ length (output_witscripts (b_tx st)) = (untrimmed + 2)%nat
    /\ forall i, (b_n st <= i < untrimmed + 2)%nat ->
         b_htlcmap st !! i = Some (stale_htlcmap stale i)
         /\ b_cltvs st !! i = Some (stale_cltvs stale i)
         /\ output_witscripts (b_tx st) !! i = Some None.
Proof.
  eexists. split; [apply emit_outputs_build_of|].
  pose proof (emitted_rows_length mem ks feerate_per_kw dust_limit side0
                to_self_delay direct_outputs stale self_pay other_pay htlcs) as Hlen.
  set (rows := emitted_rows mem ks feerate_per_kw dust_limit side0 to_self_delay
                 direct_outputs stale self_pay other_pay htlcs) in *.
  assert (Hn : (untrimmed <= length rows <= untrimmed + 2)%nat).
  { rewrite Hlen.
    destruct (amount_msat_greater_eq_sat self_pay dust_limit),
             (amount_msat_greater_eq_sat other_pay dust_limit); simpl; lia. }
  unfold build_of, num_outputs;
    cbn [b_tx b_n b_htlcmap b_cltvs wtx outputs outputs_allocation_len
         output_witscripts].
  split; [done|]. split; [by rewrite length_fmap|]. split; [done|].
  rewrite !length_app, !length_fmap, !length_drop, !tal_arr_length,
    length_replicate.
  split; [lia|]. split; [lia|]. split; [lia|].
  intros i Hi.
  rewrite !lookup_app_r by (rewrite length_fmap; lia).
  rewrite !length_fmap, !lookup_drop.
  replace (length rows + (i - length rows))%nat with i by lia.
  rewrite !tal_arr_lookup by lia.
  by rewrite lookup_replicate_2 by lia.
Qed.
End Emission.

(** ** More on the canonical order and the rows *)

Lemma output_cmp_refl a : output_cmp a a = Eq.
Proof.
  pose proof (output_cmp_opp a a) as E. by destruct (output_cmp a a).
Qed.

Global Instance row_le_trans : Transitive row_le.
Proof.
  intros a b c. unfold row_le, row_cmp.
  destruct (output_cmp (row_out a) (row_out b)) eqn:Eab; simpl; try done.
  - apply output_cmp_eq in Eab. rewrite Eab.
    destruct (output_cmp (row_out b) (row_out c)); simpl; try done.
    rewrite !Z.compare_le_iff. lia.
  - intros _. destruct (output_cmp (row_out b) (row_out c)) eqn:Ebc; simpl; try done.
    + apply output_cmp_eq in Ebc. rewrite <- Ebc, Eab. done.
    + intros _. by rewrite (output_cmp_lt_trans _ _ _ Eab Ebc).
Qed.

Section MoreRowFacts.
Context `{Collaborators}.
Variable mem : htlc_store.
Variable ks : keyset.
Variable feerate_per_kw : Z.
Variable dust_limit : amount_sat.
Variable side0 : side.
Variable to_self_delay : Z.
Variable direct_outputs : bool.

Local Abbreviation emittedRows :=
  (emitted_rows mem ks feerate_per_kw dust_limit side0 to_self_delay direct_outputs).

(** The height that travels with a row is the expiry of its HTLC; only the
    two balance rows carry something else. *)
Lemma emitted_rows_cltv stale self_pay other_pay hs :
  Forall (fun r => row_cltv r = expiry (mem (row_map r))
                   \/ row_map r = (if direct_outputs then dummy_to_local else NULL)
                   \/ row_map r = (if direct_outputs then dummy_to_remote else NULL))
         (emittedRows stale self_pay other_pay hs).
Proof.
  unfold emitted_rows, htlc_rows, local_rows, remote_rows.
  rewrite !Forall_app. repeat split.
  - induction hs as [|p hs IH]; simpl; [constructor|].
    destruct (_ && _); [|done]. constructor; [by left|done].
  - induction hs as [|p hs IH]; simpl; [constructor|].
    destruct (_ && _); [|done]. constructor; [by left|done].
  - destruct (amount_msat_greater_eq_sat self_pay dust_limit); constructor;
      [|constructor]. right; by left.
  - destruct (amount_msat_greater_eq_sat other_pay dust_limit); constructor;
      [|constructor]. right; by right.
Qed.

(** A row with a witness script is locked by the hash of that script; the
    row without one is the [to_remote] row. *)
Lemma emitted_rows_wit_kind stale self_pay other_pay hs :
  Forall (fun r => match row_wit r with
                   | Some ws => script (row_out r) = scriptpubkey_p2wsh ws
                   | None => row_out r = to_remote_out ks other_pay
                   end)
         (emittedRows stale self_pay other_pay hs).
Proof.
  unfold emitted_rows, htlc_rows, local_rows, remote_rows.
  rewrite !Forall_app. repeat split.
  - induction hs as [|p hs IH]; simpl; [constructor|].
    destruct (_ && _); [|done]. by constructor.
  - induction hs as [|p hs IH]; simpl; [constructor|].
    destruct (_ && _); [|done]. by constructor.
  - destruct (amount_msat_greater_eq_sat self_pay dust_limit); by repeat constructor.
  - destruct (amount_msat_greater_eq_sat other_pay dust_limit); by repeat constructor.
Qed.

(** The rows depend on the scratch memory only through [cltvs]. *)
Lemma emitted_rows_stale stale stale' self_pay other_pay hs :
  (forall n, stale_cltvs stale' n = stale_cltvs stale n) ->
  emittedRows stale' self_pay other_pay hs = emittedRows stale self_pay other_pay hs.
Proof.
  intros Hc. unfold emitted_rows, local_rows, remote_rows, local_row, remote_row.
  by rewrite !Hc.
Qed.

Lemma htlc_rows_nil hs :
  commit_tx_num_untrimmed mem hs feerate_per_kw dust_limit side0 = 0%nat ->
  htlc_rows mem ks feerate_per_kw dust_limit side0 hs = [].
Proof.
  rewrite (num_untrimmed_rows mem ks). by intros ?%nil_length_inv.
Qed.
End MoreRowFacts.

(** ** The number fields for any 64-bit number *)

Lemma locktime_top_byte N :
  Z.shiftr (Z.lor 0x20000000 (Z.land N 0xFFFFFF)) 24 = 0x20.
Proof.
  apply Z.bits_inj'. intros n Hn. bits.
  change 0x20000000 with (2 ^ 29). change 0x20 with (2 ^ 5).
  rewrite !Z.pow2_bits_eqb by lia.
  destruct (Z.ltb_spec (n + 24) 24); [lia|]. rewrite andb_false_r, orb_false_r.
  destruct (Z.eqb_spec 29 (n + 24)), (Z.eqb_spec 5 n); try done; lia.
Qed.

Lemma sequence_top_byte N :
  Z.shiftr (Z.lor 0x80000000 (Z.land (Z.shiftr N 24) 0xFFFFFF)) 24 = 0x80.
Proof.
  apply Z.bits_inj'. intros n Hn. bits.
  change 0x80000000 with (2 ^ 31). change 0x80 with (2 ^ 7).
  rewrite !Z.pow2_bits_eqb by lia.
  destruct (Z.ltb_spec (n + 24) 24); [lia|]. rewrite andb_false_r, orb_false_r.
  destruct (Z.eqb_spec 31 (n + 24)), (Z.eqb_spec 7 n); try done; lia.
Qed.

(** Only the low 48 bits of the number reach the two fields. *)
Lemma obscured_number_decode_mod N :
  Z.lor (Z.land (Z.lor 0x20000000 (Z.land N 0xFFFFFF)) 0xFFFFFF)
        (Z.shiftl (Z.land (Z.lor 0x80000000 (Z.land (Z.shiftr N 24) 0xFFFFFF))
                          0xFFFFFF) 24)
  = N mod 2 ^ 48.
Proof.
  apply Z.bits_inj'. intros n Hn.
  rewrite (Z.testbit_mod_pow2 N 48 n) by lia.
  destruct (Z.ltb_spec n 24) as [Hlo|Hhi].
  - rewrite Z.lor_spec, Z.shiftl_spec_low, orb_false_r by lia. bits.
    change 0x20000000 with (2 ^ 29). rewrite Z.pow2_bits_eqb by lia.
    destruct (Z.eqb_spec 29 n); [lia|].
    destruct (Z.ltb_spec n 24); [|lia].
    destruct (Z.ltb_spec n 48); [|lia].
    simpl. by rewrite !andb_true_r.
  - bits.
    destruct (Z.ltb_spec n 24); [lia|]. rewrite andb_false_r. simpl.
    change 0x80000000 with (2 ^ 31). rewrite Z.pow2_bits_eqb by lia.
    replace (n - 24 + 24) with n by lia.
    destruct (Z.ltb_spec (n - 24) 24) as [Hmid|Htop].
    + destruct (Z.eqb_spec 31 (n - 24)); [lia|].
      destruct (Z.ltb_spec n 48); [|lia].
      simpl. by rewrite !andb_true_r.
    + destruct (Z.ltb_spec n 48); [lia|].
      by rewrite !andb_false_r.
Qed.

(** ** More on what a call returns *)

Lemma final_entry_row (direct : bool) (rows : list out_row) (m : list htlc_ptr) i e :
  m = (if direct then clear_tag <$> (row_map <$> rows) else row_map <$> rows) ->
  m !! i = Some e ->
  exists row, rows !! i = Some row
    /\ e = if direct then clear_tag (row_map row) else row_map row.
Proof.
  intros -> He. destruct direct; rewrite !list_lookup_fmap in He;
    destruct (rows !! i) as [row|]; simpl in He; try done;
    injection He as <-; eauto.
Qed.

Section CallExtras.
Context `{Collaborators}.
Variable mem : htlc_store.
Variable ks : keyset.
Variable feerate_per_kw : Z.
Variable dust_limit : amount_sat.
Variable side0 : side.
Variable to_self_delay : Z.
Variable direct_outputs : bool.
Variable stale : stale_memory.
Variable funding_txid : bytes.
Variable funding_txout : Z.
Variable funding : amount_sat.
Variable opener : side.
Variable self_pay other_pay : amount_msat.
Variable htlcs : list htlc_ptr.
Variable obscured_commitment_number : Z.

Local Abbreviation untrimmed :=
  (commit_tx_num_untrimmed mem htlcs feerate_per_kw dust_limit side0).
Local Abbreviation base_fee := (commit_tx_base_fee feerate_per_kw untrimmed).
Local Abbreviation pays :=
  (try_subtract_fee opener side0 base_fee self_pay other_pay).
Local Abbreviation emitted :=
  (emitted_rows mem ks feerate_per_kw dust_limit side0 to_self_delay direct_outputs
                stale pays.1 pays.2 htlcs).
Local Abbreviation finalRows :=
  (commit_tx_final_rows mem ks feerate_per_kw dust_limit side0 to_self_delay
     direct_outputs stale funding_txid funding_txout funding opener self_pay
     other_pay htlcs obscured_commitment_number).

(** X4. The aborts of [commit_tx]: the call fails when the sum of the two
    balances does not fit 64 bits, when it exceeds the funding, and when no
    HTLC survives trimming and neither balance reaches the dust limit once
    the fee is off. *)
Theorem commit_tx_aborts :
  let call :=
    commit_tx mem stale funding_txid funding_txout funding opener to_self_delay ks
              feerate_per_kw dust_limit self_pay other_pay htlcs direct_outputs
              obscured_commitment_number side0 in
  (u64_max <= millisatoshis self_pay + millisatoshis other_pay -> call = None)
  /\ (satoshis funding * 1000 < millisatoshis self_pay + millisatoshis other_pay ->
      call = None)
  /\ (untrimmed = 0%nat ->
      amount_msat_greater_eq_sat pays.1 dust_limit = false ->
      amount_msat_greater_eq_sat pays.2 dust_limit = false ->
      call = None).
Proof.
  cbv zeta.
  destruct (commit_tx mem stale funding_txid funding_txout funding opener
              to_self_delay ks feerate_per_kw dust_limit self_pay other_pay htlcs
              direct_outputs obscured_commitment_number side0) as [r|] eqn:Hcall;
    [|done].
  apply commit_tx_Some in Hcall as (H1 & H2 & H3 & _).
  rewrite emitted_rows_length in H3.
  split; [intros; lia|]. split; [intros; lia|].
  intros Hu Hl Hr. rewrite Hl, Hr in H3. simpl in H3. lia.
Qed.

(** X5. The direct-output slots: a call reports slots only when asked to;
    a reported position is a position of the transaction, the map entry
    there is [NULL], and the two positions differ. *)
Theorem commit_tx_direct_slots r to_us to_them :
  commit_tx mem stale funding_txid funding_txout funding opener to_self_delay ks
            feerate_per_kw dust_limit self_pay other_pay htlcs direct_outputs
            obscured_commitment_number side0 = Some r ->
  res_direct_outputs r = Some (to_us, to_them) ->
  direct_outputs = true
  /\ (forall i, to_us = Some i ->
        (i < num_outputs (wtx (res_tx r)))%nat /\ res_htlcmap r !! i = Some NULL)
  /\ (forall j, to_them = Some j ->
        (j < num_outputs (wtx (res_tx r)))%nat /\ res_htlcmap r !! j = Some NULL)
  /\ (forall i j, to_us = Some i -> to_them = Some j -> i <> j).
Proof.
  intros Hcall Hres.
  destruct (finalRows r Hcall)
    as (rows & Hperm & Hsorted & Hok & Hout & Hwit & Hmap & Hslots).
  destruct direct_outputs; [|congruence].
  destruct Hslots as (dl & dr & Hres' & Hl & Hr).
  rewrite Hres in Hres'. injection Hres' as -> ->.
  split; [done|].
  assert (Hat : forall i tag, (row_map <$> rows) !! i = Some tag ->
            (tag = dummy_to_local \/ tag = dummy_to_remote) ->
            (i < num_outputs (wtx (res_tx r)))%nat
            /\ res_htlcmap r !! i = Some NULL).
  { intros i tag Hi Htag. split.
    - unfold num_outputs. rewrite Hout, length_fmap.
      apply lookup_lt_Some in Hi. by rewrite length_fmap in Hi.
    - rewrite Hmap, list_lookup_fmap, Hi. simpl.
      by destruct Htag as [-> | ->]. }
  split; [|split].
  - intros i ->. eapply Hat; eauto.
  - intros j ->. eapply Hat; eauto.
  - intros i j -> -> <-. rewrite Hl in Hr. done.
Qed.

(** X6. Amounts of the outputs: the output at a non-null map entry carries
    the amount of that HTLC truncated to satoshis, so never more than the
    HTLC and less than one satoshi below it; the output at a null entry (a
    balance output, the list holding real pointers) carries at least the
    dust limit. *)
Theorem commit_tx_output_amounts r i e o :
  commit_tx mem stale funding_txid funding_txout funding opener to_self_delay ks
            feerate_per_kw dust_limit self_pay other_pay htlcs direct_outputs
            obscured_commitment_number side0 = Some r ->
  res_htlcmap r !! i = Some e ->
  outputs (wtx (res_tx r)) !! i = Some o ->
  (e <> NULL ->
     satoshi o * 1000 <= millisatoshis (amount (mem e)) < satoshi o * 1000 + 1000)
  /\ (e = NULL -> Forall genuine htlcs -> satoshis dust_limit <= satoshi o).
Proof.
  intros Hcall He Ho.
  destruct (finalRows r Hcall)
    as (rows & Hperm & Hsorted & Hok & Hout & Hwit & Hmap & Hslots).
  destruct (final_entry_row _ _ _ _ _ Hmap He) as (row & Hrow & Hrme).
  pose proof (Forall_lookup_1 _ _ _ _ Hok Hrow) as Hrok.
  rewrite Hout, list_lookup_fmap, Hrow in Ho. injection Ho as <-.
  assert (Hdust : forall m, amount_msat_greater_eq_sat m dust_limit = true ->
            satoshis dust_limit <= millisatoshis m / 1000).
  { intros m Hge. apply Z.leb_le in Hge. apply Z.div_le_lower_bound; lia. }
  destruct Hrok as [(p & Hp & Hu & Hm & Hro)|[(Hge & Hm & Hro)|(Hge & Hm & Hro)]];
    rewrite Hm in Hrme; rewrite Hro.
  - split.
    + intros Hne. assert (e = p) as ->.
      { destruct direct_outputs; [|done].
        destruct (clear_tag_cases p) as [[E _]|[E _]]; congruence. }
      assert (satoshi (htlc_out mem ks side0 p) = millisatoshis (amount (mem p)) / 1000)
        as -> by (unfold htlc_out; by destruct (is_offered mem side0 p)).
      pose proof (Z.div_mod (millisatoshis (amount (mem p))) 1000 ltac:(lia)).
      pose proof (Z.mod_pos_bound (millisatoshis (amount (mem p))) 1000 ltac:(lia)).
      lia.
    + intros -> Hgen. exfalso.
      rewrite Forall_forall in Hgen. destruct (Hgen p Hp) as (G0 & G1 & G2).
      destruct direct_outputs; [|done].
      destruct (clear_tag_cases p) as [[_ [?|[?|?]]]|[E _]]; congruence.
  - split; [intros Hne; exfalso; by destruct direct_outputs|].
    intros _ _. by apply Hdust.
  - split; [intros Hne; exfalso; by destruct direct_outputs|].
    intros _ _. by apply Hdust.
Qed.

(** X7. Witness scripts: the finalized transaction keeps one witness-script
    entry per output; where the entry holds a script, the output at that
    index is locked by the pay-to-script form of exactly that script; the
    one output without a script is [to_remote]. *)
Theorem commit_tx_witscripts r :
  commit_tx mem stale funding_txid funding_txout funding opener to_self_delay ks
            feerate_per_kw dust_limit self_pay other_pay htlcs direct_outputs
            obscured_commitment_number side0 = Some r ->
  length (output_witscripts (res_tx r)) = num_outputs (wtx (res_tx r))
  /\ forall i o w,
       outputs (wtx (res_tx r)) !! i = Some o ->
       output_witscripts (res_tx r) !! i = Some w ->
       match w with
       | Some ws => script o = scriptpubkey_p2wsh ws
       | None => o = to_remote_out ks pays.2
       end.
Proof.
  intros Hcall.
  destruct (finalRows r Hcall)
    as (rows & Hperm & Hsorted & Hok & Hout & Hwit & Hmap & Hslots).
  unfold num_outputs. rewrite Hout, Hwit, !length_fmap. split; [done|].
  intros i o w Ho Hw.
  rewrite list_lookup_fmap in Ho. rewrite list_lookup_fmap in Hw.
  destruct (rows !! i) as [row|] eqn:Hrow; simpl in *; [|done].
  injection Ho as <-. injection Hw as <-.
  assert (Hkind : Forall (fun r => match row_wit r with
                    | Some ws => script (row_out r) = scriptpubkey_p2wsh ws
                    | None => row_out r = to_remote_out ks pays.2
                    end) rows).
  { rewrite Hperm. apply emitted_rows_wit_kind. }
  exact (Forall_lookup_1 _ _ _ _ Hkind Hrow).
Qed.

(** X8. No HTLC is lost or doubled: for a list of real pointers, the
    non-null entries of the returned map are, up to order, exactly the
    untrimmed HTLCs of the list, each as often as the list has it. *)
Theorem commit_tx_htlcmap_complete r :
  commit_tx mem stale funding_txid funding_txout funding opener to_self_delay ks
            feerate_per_kw dust_limit self_pay other_pay htlcs direct_outputs
            obscured_commitment_number side0 = Some r ->
  Forall genuine htlcs ->
  List.filter (fun e => negb (e =? NULL)) (res_htlcmap r)
  ≡ₚ List.filter (fun p => negb (trim (mem p) feerate_per_kw dust_limit side0)) htlcs.
Proof.
  intros Hcall Hgen.
  destruct (finalRows r Hcall)
    as (rows & Hperm & Hsorted & Hok & Hout & Hwit & Hmap & Hslots).
  set (g := fun p : htlc_ptr => if direct_outputs then clear_tag p else p).
  assert (Hmap' : res_htlcmap r = g <$> (row_map <$> rows)).
  { rewrite Hmap. unfold g. destruct direct_outputs; [done|].
    by rewrite list_fmap_id. }
  rewrite Hmap'.
  etransitivity;
    [apply List_filter_perm; do 2 apply fmap_Permutation; exact Hperm|].
  unfold emitted_rows.
  rewrite !fmap_app, !List.filter_app.
  assert (Hl : forall n, List.filter (fun e => negb (e =? NULL))
                 (g <$> (row_map <$>
                    local_rows ks dust_limit to_self_delay direct_outputs stale
                               n pays.1)) = []).
  { intros n. unfold g, local_rows.
    by destruct (amount_msat_greater_eq_sat pays.1 dust_limit), direct_outputs. }
  assert (Hr : forall n, List.filter (fun e => negb (e =? NULL))
                 (g <$> (row_map <$>
                    remote_rows ks dust_limit direct_outputs stale n pays.2)) = []).
  { intros n. unfold g, remote_rows.
    by destruct (amount_msat_greater_eq_sat pays.2 dust_limit), direct_outputs. }
  rewrite Hl.
  rewrite Hr, !app_nil_r.
  pose proof (htlc_rows_map mem ks feerate_per_kw dust_limit side0 htlcs) as Hrows.
  assert (Hkeep : forall l, Forall genuine l ->
            List.filter (fun e => negb (e =? NULL)) (g <$> l) = l).
  { induction 1 as [|p l (G0 & G1 & G2) _ IH]; csimpl; [done|].
    assert (g p = p) as ->.
    { unfold g. destruct direct_outputs; [|done].
      destruct (clear_tag_cases p) as [[_ [?|[?|?]]]|[E _]]; congruence. }
    destruct (Z.eqb_spec p NULL); [done|]. simpl. by rewrite IH. }
  rewrite Hkeep; [exact Hrows|].
  rewrite Hrows. apply Forall_forall. intros p Hp.
  rewrite Forall_forall in Hgen. apply Hgen.
  apply list_elem_of_In, List.filter_In in Hp as [Hp _].
  by apply list_elem_of_In.
Qed.

(** X9. The uninitialised map never reaches the caller: two calls whose
    fresh [cltvs] arrays hold the same junk return the same result whatever
    the fresh [htlcmap] array held. *)
Theorem commit_tx_ignores_stale_htlcmap stale' :
  (forall n, stale_cltvs stale' n = stale_cltvs stale n) ->
  commit_tx mem stale' funding_txid funding_txout funding opener to_self_delay ks
            feerate_per_kw dust_limit self_pay other_pay htlcs direct_outputs
            obscured_commitment_number side0
  = commit_tx mem stale funding_txid funding_txout funding opener to_self_delay ks
              feerate_per_kw dust_limit self_pay other_pay htlcs direct_outputs
              obscured_commitment_number side0.
Proof.
  intros Hc. rewrite !commit_tx_rows. cbv zeta.
  by rewrite (emitted_rows_stale mem ks feerate_per_kw dust_limit side0
                to_self_delay direct_outputs stale stale' _ _ _ Hc).
Qed.

(** X10. The number fields for any number: the top byte of the locktime is
    0x20 and the top byte of the sequence of the one input is 0x80, both
    fit 32 bits, and together they hold the number modulo 2^48: bits 48
    and up of the obscured commitment number are dropped. *)
Theorem commit_tx_number_fields r :
  commit_tx mem stale funding_txid funding_txout funding opener to_self_delay ks
            feerate_per_kw dust_limit self_pay other_pay htlcs direct_outputs
            obscured_commitment_number side0 = Some r ->
  exists input,
    inputs (wtx (res_tx r)) = [input]
    /\ Z.shiftr (locktime (wtx (res_tx r))) 24 = 0x20
    /\ Z.shiftr (sequence input) 24 = 0x80
    /\ Z.lor (Z.land (locktime (wtx (res_tx r))) 0xFFFFFF)
             (Z.shiftl (Z.land (sequence input) 0xFFFFFF) 24)
       = obscured_commitment_number mod 2 ^ 48.
Proof.
  intros Hcall. apply commit_tx_Some in Hcall as (_ & _ & _ & _ & ->).
  cbn [res_tx assemble wtx inputs locktime]. eexists. split; [reflexivity|].
  cbn [sequence]. rewrite locktime_fits, sequence_fits.
  split; [apply locktime_top_byte|]. split; [apply sequence_top_byte|].
  apply obscured_number_decode_mod.
Qed.

(** X11. Nothing but balances: when no HTLC survives trimming (the empty
    list included), a returned transaction has one or two outputs, each the
    [to_local] or the [to_remote] output, and every map entry is [NULL]. *)
Theorem commit_tx_all_trimmed r :
  commit_tx_num_untrimmed mem htlcs feerate_per_kw dust_limit side0 = 0%nat ->
  commit_tx mem stale funding_txid funding_txout funding opener to_self_delay ks
            feerate_per_kw dust_limit self_pay other_pay htlcs direct_outputs
            obscured_commitment_number side0 = Some r ->
  (1 <= num_outputs (wtx (res_tx r)) <= 2)%nat
  /\ Forall (fun o => o = to_local_out ks to_self_delay pays.1
                      \/ o = to_remote_out ks pays.2)
            (outputs (wtx (res_tx r)))
  /\ Forall (fun e => e = NULL) (res_htlcmap r).
Proof.
  intros Hu Hcall.
  pose proof Hcall as Hcall'.
  apply commit_tx_Some in Hcall' as (_ & _ & Hpos & _).
  destruct (finalRows r Hcall)
    as (rows & Hperm & Hsorted & Hok & Hout & Hwit & Hmap & Hslots).
  pose proof (emitted_rows_length mem ks feerate_per_kw dust_limit side0
                to_self_delay direct_outputs stale pays.1 pays.2 htlcs) as Hlen.
  assert (Hbal : Forall (fun row =>
            (row_out row = to_local_out ks to_self_delay pays.1
             \/ row_out row = to_remote_out ks pays.2)
            /\ (if direct_outputs then clear_tag (row_map row) else row_map row)
               = NULL) rows).
  { rewrite Hperm. unfold emitted_rows.
    rewrite (htlc_rows_nil mem ks feerate_per_kw dust_limit side0 htlcs Hu).
    unfold local_rows, remote_rows. simpl.
    destruct (amount_msat_greater_eq_sat pays.1 dust_limit),
             (amount_msat_greater_eq_sat pays.2 dust_limit);
      repeat constructor; simpl; auto; by destruct direct_outputs. }
  split; [|split].
  - unfold num_outputs. rewrite Hout, length_fmap, Hperm.
    rewrite Hlen in Hpos |- *.
    destruct (amount_msat_greater_eq_sat pays.1 dust_limit),
             (amount_msat_greater_eq_sat pays.2 dust_limit);
      simpl in Hpos |- *; lia.
  - rewrite Hout, Forall_fmap. eapply Forall_impl; [exact Hbal|].
    by intros row [? _].
  - rewrite Hmap. destruct direct_outputs; rewrite ?Forall_fmap;
      (eapply Forall_impl; [exact Hbal|]); by intros row [_ ?].
Qed.

(** X12. Tie-break by expiry: when two HTLC outputs of the returned
    transaction are equal in amount and script, the one at the lower index
    belongs to the HTLC that expires no later ([permute_outputs] as
    section 4.5 describes it, fed the [cltvs] the loops recorded). *)
Theorem commit_tx_cltv_order r i j e1 e2 :
  commit_tx mem stale funding_txid funding_txout funding opener to_self_delay ks
            feerate_per_kw dust_limit self_pay other_pay htlcs direct_outputs
            obscured_commitment_number side0 = Some r ->
  (i < j)%nat ->
  res_htlcmap r !! i = Some e1 -> e1 <> NULL ->
  res_htlcmap r !! j = Some e2 -> e2 <> NULL ->
  outputs (wtx (res_tx r)) !! i = outputs (wtx (res_tx r)) !! j ->
  expiry (mem e1) <= expiry (mem e2).
Proof.
  intros Hcall Hij He1 Hn1 He2 Hn2 Hsame.
  destruct (finalRows r Hcall)
    as (rows & Hperm & Hsorted & Hok & Hout & Hwit & Hmap & Hslots).
  destruct (final_entry_row _ _ _ _ _ Hmap He1) as (row1 & Hrow1 & Hrme1).
  destruct (final_entry_row _ _ _ _ _ Hmap He2) as (row2 & Hrow2 & Hrme2).
  assert (Hcltv : Forall (fun r =>
            row_cltv r = expiry (mem (row_map r))
            \/ row_map r = (if direct_outputs then dummy_to_local else NULL)
            \/ row_map r = (if direct_outputs then dummy_to_remote else NULL)) rows).
  { rewrite Hperm. apply emitted_rows_cltv. }
  assert (Hexp : forall row e,
            (row_cltv row = expiry (mem (row_map row))
             \/ row_map row = (if direct_outputs then dummy_to_local else NULL)
             \/ row_map row = (if direct_outputs then dummy_to_remote else NULL)) ->
            e = (if direct_outputs then clear_tag (row_map row) else row_map row) ->
            e <> NULL -> row_cltv row = expiry (mem e)).
  { intros row e Hk -> Hne. destruct direct_outputs.
    - destruct Hk as [Hk|[Hk|Hk]]; [|rewrite Hk in Hne; done..].
      destruct (clear_tag_cases (row_map row)) as [[E _]|[E _]]; congruence.
    - destruct Hk as [Hk|[Hk|Hk]]; [done|congruence..]. }
  rewrite <- (Hexp row1 e1 (Forall_lookup_1 _ _ _ _ Hcltv Hrow1) Hrme1 Hn1).
  rewrite <- (Hexp row2 e2 (Forall_lookup_1 _ _ _ _ Hcltv Hrow2) Hrme2 Hn2).
  rewrite Hout, !list_lookup_fmap, Hrow1, Hrow2 in Hsame.
  injection Hsame as Hsame.
  pose proof (StronglySorted_lookup row_le rows i j row1 row2
                (Sorted_StronglySorted _ _ Hsorted) Hij Hrow1 Hrow2) as Hle.
  unfold row_le, row_cmp in Hle.
  rewrite Hsame, output_cmp_refl in Hle. simpl in Hle.
  by apply Z.compare_le_iff.
Qed.
End CallExtras.

(** ** Trimmed HTLCs leave no trace *)

Section Trimmed.
Context `{Collaborators}.
Variable mem : htlc_store.
Variable ks : keyset.
Variable feerate_per_kw : Z.
Variable dust_limit : amount_sat.
Variable side0 : side.

Local Abbreviation isUntrimmed := (untrimmed_htlc mem feerate_per_kw dust_limit side0).

Lemma offered_rows_untrimmed hs :
  offered_rows mem ks feerate_per_kw dust_limit side0 (List.filter isUntrimmed hs)
  = offered_rows mem ks feerate_per_kw dust_limit side0 hs.
Proof.
  induction hs as [|p hs IH]; simpl; [done|].
  destruct (isUntrimmed p) eqn:Hu; simpl; rewrite ?Hu, IH; [done|].
  by rewrite andb_false_r.
Qed.

Lemma received_rows_untrimmed hs :
  received_rows mem ks feerate_per_kw dust_limit side0 (List.filter isUntrimmed hs)
  = received_rows mem ks feerate_per_kw dust_limit side0 hs.
Proof.
  induction hs as [|p hs IH]; simpl; [done|].
  destruct (isUntrimmed p) eqn:Hu; simpl; rewrite ?Hu, IH; [done|].
  by rewrite andb_false_r.
Qed.

(** X13. Trimmed HTLCs leave no trace: a call on the list with its trimmed
    HTLCs taken out returns exactly what the call on the whole list
    returns, transaction, map and slots. *)
Theorem commit_tx_drops_trimmed stale funding_txid funding_txout funding opener
    to_self_delay self_pay other_pay htlcs direct_outputs
    obscured_commitment_number :
  commit_tx mem stale funding_txid funding_txout funding opener to_self_delay ks
            feerate_per_kw dust_limit self_pay other_pay
            (List.filter (fun p => negb (trim (mem p) feerate_per_kw dust_limit side0))
                         htlcs)
            direct_outputs obscured_commitment_number side0
  = commit_tx mem stale funding_txid funding_txout funding opener to_self_delay ks
              feerate_per_kw dust_limit self_pay other_pay htlcs direct_outputs
              obscured_commitment_number side0.
Proof.
  rewrite !commit_tx_rows. cbv zeta.
  change (fun p => negb (trim (mem p) feerate_per_kw dust_limit side0))
    with isUntrimmed.
  assert (Hn : commit_tx_num_untrimmed mem (List.filter isUntrimmed htlcs)
                 feerate_per_kw dust_limit side0
               = commit_tx_num_untrimmed mem htlcs feerate_per_kw dust_limit side0).
  { rewrite !(num_untrimmed_rows mem ks). unfold htlc_rows.
    by rewrite offered_rows_untrimmed, received_rows_untrimmed. }
  rewrite Hn. unfold emitted_rows, htlc_rows.
  by rewrite offered_rows_untrimmed, received_rows_untrimmed.
Qed.
End Trimmed.

(** ** The further properties on concrete channels *)

Lemma commit_tx_direct_slots_witness :
  exists r,
    Fixture.run true Fixture.funding Fixture.self_pay Fixture.other_pay
                Fixture.htlcs = Some r
    /\ res_direct_outputs r = Some (Some 3%nat, Some 1%nat)
    /\ res_htlcmap r !! 3%nat = Some NULL
    /\ res_htlcmap r !! 1%nat = Some NULL
    /\ 3%nat <> 1%nat.
Proof.
  eexists. split; [vm_compute; reflexivity|]. split; [reflexivity|].
  destruct (@commit_tx_direct_slots Fixture.collaborators
    Fixture.store Fixture.keys 253 Fixture.dust LOCAL 144 true Fixture.stale
    Fixture.txid 0 Fixture.funding LOCAL Fixture.self_pay Fixture.other_pay
    Fixture.htlcs Fixture.number _ (Some 3%nat) (Some 1%nat) eq_refl eq_refl)
    as (_ & Hus & Hthem & Hne).
  split; [exact (proj2 (Hus _ eq_refl))|].
  split; [exact (proj2 (Hthem _ eq_refl))|].
  exact (Hne _ _ eq_refl eq_refl).
Defined.

Lemma commit_tx_output_amounts_witness :
  exists r,
    Fixture.run true Fixture.funding Fixture.self_pay Fixture.other_pay
                Fixture.htlcs = Some r
    /\ res_htlcmap r !! 2%nat = Some 4096
    /\ outputs (wtx (res_tx r)) !! 2%nat
       = Some {| satoshi := 5000; script := [0; 32; 0x76; 7; 7; 2] |}
    /\ 4096 <> NULL
    /\ 5000 * 1000 <= millisatoshis (amount (Fixture.store 4096)) < 5000 * 1000 + 1000.
Proof.
  eexists. split; [vm_compute; reflexivity|].
  split; [reflexivity|]. split; [reflexivity|].
  assert (Hne : 4096 <> NULL) by (by vm_compute).
  split; [exact Hne|].
  exact (proj1 (@commit_tx_output_amounts Fixture.collaborators
    Fixture.store Fixture.keys 253 Fixture.dust LOCAL 144 true Fixture.stale
    Fixture.txid 0 Fixture.funding LOCAL Fixture.self_pay Fixture.other_pay
    Fixture.htlcs Fixture.number _ 2%nat 4096
    {| satoshi := 5000; script := [0; 32; 0x76; 7; 7; 2] |}
    eq_refl eq_refl eq_refl) Hne).
Defined.

Lemma commit_tx_witscripts_witness :
  exists r,
    Fixture.run true Fixture.funding Fixture.self_pay Fixture.other_pay
                Fixture.htlcs = Some r
    /\ length (output_witscripts (res_tx r)) = num_outputs (wtx (res_tx r))
    /\ outputs (wtx (res_tx r)) !! 0%nat
       = Some {| satoshi := 3000; script := [0; 32; 0x77; 502; 9; 9; 3] |}
    /\ output_witscripts (res_tx r) !! 0%nat = Some (Some [0x77; 502; 9; 9; 3])
    /\ [0; 32; 0x77; 502; 9; 9; 3]
       = scriptpubkey_p2wsh (Collaborators := Fixture.collaborators)
           [0x77; 502; 9; 9; 3].
Proof.
  eexists. split; [vm_compute; reflexivity|].
  destruct (@commit_tx_witscripts Fixture.collaborators
    Fixture.store Fixture.keys 253 Fixture.dust LOCAL 144 true Fixture.stale
    Fixture.txid 0 Fixture.funding LOCAL Fixture.self_pay Fixture.other_pay
    Fixture.htlcs Fixture.number _ eq_refl) as (Hlen & Hat).
  split; [exact Hlen|]. split; [reflexivity|]. split; [reflexivity|].
  exact (Hat 0%nat _ (Some [0x77; 502; 9; 9; 3]) eq_refl eq_refl).
Defined.

Lemma commit_tx_htlcmap_complete_witness :
  exists r,
    Fixture.run true Fixture.funding Fixture.self_pay Fixture.other_pay
                Fixture.htlcs = Some r
    /\ Forall genuine Fixture.htlcs
    /\ List.filter (fun e => negb (e =? NULL)) (res_htlcmap r) ≡ₚ [4096; 4224].
Proof.
  eexists. split; [vm_compute; reflexivity|].
  assert (Hg : Forall genuine Fixture.htlcs) by (repeat constructor; by vm_compute).
  split; [exact Hg|].
  exact (@commit_tx_htlcmap_complete Fixture.collaborators
    Fixture.store Fixture.keys 253 Fixture.dust LOCAL 144 true Fixture.stale
    Fixture.txid 0 Fixture.funding LOCAL Fixture.self_pay Fixture.other_pay
    Fixture.htlcs Fixture.number _ eq_refl Hg).
Defined.

Lemma commit_tx_ignores_stale_htlcmap_witness :
  (forall n, stale_cltvs {| stale_htlcmap := fun _ => dummy_to_local;
                            stale_cltvs := stale_cltvs Fixture.stale |} n
             = stale_cltvs Fixture.stale n)
  /\ commit_tx Fixture.store
       {| stale_htlcmap := fun _ => dummy_to_local;
          stale_cltvs := stale_cltvs Fixture.stale |}
       Fixture.txid 0 Fixture.funding LOCAL 144 Fixture.keys 253 Fixture.dust
       Fixture.self_pay Fixture.other_pay Fixture.htlcs true Fixture.number LOCAL
     = Fixture.run true Fixture.funding Fixture.self_pay Fixture.other_pay
                   Fixture.htlcs.
Proof.
  split; [reflexivity|].
  exact (@commit_tx_ignores_stale_htlcmap Fixture.collaborators
    Fixture.store Fixture.keys 253 Fixture.dust LOCAL 144 true Fixture.stale
    Fixture.txid 0 Fixture.funding LOCAL Fixture.self_pay Fixture.other_pay
    Fixture.htlcs Fixture.number
    {| stale_htlcmap := fun _ => dummy_to_local;
       stale_cltvs := stale_cltvs Fixture.stale |}
    (fun n => eq_refl)).
Defined.

(** A number with bits above the 48th: they do not reach the transaction. *)
Lemma commit_tx_number_fields_witness :
  exists r input,
    commit_tx Fixture.store Fixture.stale Fixture.txid 0 Fixture.funding LOCAL 144
              Fixture.keys 253 Fixture.dust Fixture.self_pay Fixture.other_pay
              Fixture.htlcs true (2 ^ 52 + Fixture.number) LOCAL = Some r
    /\ inputs (wtx (res_tx r)) = [input]
    /\ Z.shiftr (locktime (wtx (res_tx r))) 24 = 0x20
    /\ Z.shiftr (sequence input) 24 = 0x80
    /\ Z.lor (Z.land (locktime (wtx (res_tx r))) 0xFFFFFF)
             (Z.shiftl (Z.land (sequence input) 0xFFFFFF) 24)
       = (2 ^ 52 + Fixture.number) mod 2 ^ 48.
Proof.
  destruct (@commit_tx_number_fields Fixture.collaborators
    Fixture.store Fixture.keys 253 Fixture.dust LOCAL 144 true Fixture.stale
    Fixture.txid 0 Fixture.funding LOCAL Fixture.self_pay Fixture.other_pay
    Fixture.htlcs (2 ^ 52 + Fixture.number) _ eq_refl) as (input & Hin).
  eexists _, input. split; [reflexivity|]. exact Hin.
Defined.

(** Only the trimmed HTLC in the list. *)
Lemma commit_tx_all_trimmed_witness :
  exists r,
    commit_tx_num_untrimmed Fixture.store [4160] 253 Fixture.dust LOCAL = 0%nat
    /\ Fixture.run false Fixture.funding Fixture.self_pay Fixture.other_pay [4160]
       = Some r
    /\ (1 <= num_outputs (wtx (res_tx r)) <= 2)%nat
    /\ Forall (fun e => e = NULL) (res_htlcmap r).
Proof.
  eexists. split; [reflexivity|]. split; [vm_compute; reflexivity|].
  destruct (@commit_tx_all_trimmed Fixture.collaborators
    Fixture.store Fixture.keys 253 Fixture.dust LOCAL 144 false Fixture.stale
    Fixture.txid 0 Fixture.funding LOCAL Fixture.self_pay Fixture.other_pay
    [4160] Fixture.number _ eq_refl eq_refl) as (Hn & _ & Hmap).
  split; [exact Hn|exact Hmap].
Defined.

(** The two equal outputs come out with the earlier expiry first, though
    the list has the later one first. *)
Lemma commit_tx_cltv_order_witness :
  exists r,
    TieFixture.run = Some r
    /\ (0 < 1)%nat
    /\ res_htlcmap r !! 0%nat = Some 8256 /\ 8256 <> NULL
    /\ res_htlcmap r !! 1%nat = Some 8192 /\ 8192 <> NULL
    /\ outputs (wtx (res_tx r)) !! 0%nat = outputs (wtx (res_tx r)) !! 1%nat
    /\ expiry (TieFixture.store 8256) <= expiry (TieFixture.store 8192).
Proof.
  eexists. split; [vm_compute; reflexivity|].
  assert (H01 : (0 < 1)%nat) by lia.
  assert (Hn1 : 8256 <> NULL) by (by vm_compute).
  assert (Hn2 : 8192 <> NULL) by (by vm_compute).
  split; [exact H01|]. split; [reflexivity|]. split; [exact Hn1|].
  split; [reflexivity|]. split; [exact Hn2|]. split; [reflexivity|].
  exact (@commit_tx_cltv_order Fixture.collaborators
    TieFixture.store Fixture.keys 253 Fixture.dust LOCAL 144 true Fixture.stale
    Fixture.txid 0 (AMOUNT_SAT 30000) LOCAL (AMOUNT_MSAT 12000000)
    (AMOUNT_MSAT 10000000) TieFixture.htlcs Fixture.number _ 0%nat 1%nat 8256 8192
    eq_refl H01 eq_refl Hn1 eq_refl Hn2 eq_refl).
Defined.
